(** * ts-pattern: the structural match engine ([src/internals/helpers.ts])

    A shallow embedding of [isObject], [isMatcher], [isOptionalPattern],
    [matchPattern], [getSelectionKeys] and [flatMap], together with the
    fragment of the JavaScript value model these functions observe.

    - Patterns and values are JavaScript values ([pattern: any],
      [value: any]).  They are finite trees: the engine never mutates
      them, and its recursion follows the pattern only.  Arrays are
      dense; proxies are not modelled.
    - Calls into host code are recorded, in order, in a trace of events;
      a computation yields its trace and either a result or the thrown
      value.  The errors of the runtime itself ([in] on a primitive, a
      property read on [undefined], a call of a non-function) are thrown
      values like any other.
    - The engine is embedded twice.  [Section Engine] is the engine as
      the signatures of [types/Pattern.ts] type it: a truthy value under
      [symbols.matcher] is the accessor of a Matcher, which returns a
      [MatcherProtocol] and does nothing else; [match] returns a
      [MatchResult] or throws; [getSelectionKeys] and the [select]
      callback return; properties are data properties; matchers are
      stateless.  Its events are the calls of [match],
      [getSelectionKeys] and [select].  [Module General] is
      [isMatcher], [isOptionalPattern] and [matchPattern] with none of
      this assumed: the value under the key may be anything truthy, the
      accessor and [select] may throw, properties may be defined by
      getters, and the calls of accessors and getters are events too.
      The last theorem of [Section GeneralFacts] relates the two. *)

From Stdlib Require Import List String ZArith Bool Arith DecimalString.
Import ListNotations.
Local Open Scope string_scope.
Local Open Scope list_scope.

(** ** JavaScript values *)

(** Numbers.  A finite non-zero double is [(-1)^negative * m * 2^e] with
    [m] odd, which determines [m] and [e]; so two numbers are the same
    value exactly when they are the same term. *)
Inductive number : Type :=
| NaN
| Zero (negative : bool)
| Infinity (negative : bool)
| Finite (negative : bool) (m : positive) (e : Z).

(** The property stored under the well-known key [symbols.matcher].
    [Accessor f] is a truthy value, known by its identity [f]: by the
    [Matcher] interface, for which [isMatcher] is the type guard
    [x is Matcher<...>], it is the accessor function
    [[matcher](): MatcherProtocol], and [Section Engine] takes it for
    that; [Module General] takes it for any truthy value, a function or
    not.  [Falsy] is a property that is present but holds a falsy value
    ([undefined], [null], [false], [0], ...). *)
Inductive matcher_property : Type :=
| Absent
| Falsy
| Accessor (f : nat).

(** Values.  Functions are host objects, known by their identity [id].
    [items] are the elements of a (dense) array, [own] the own enumerable
    string-keyed properties of an object in enumeration order (the first
    binding of a key is the property), [rest] the string-keyed properties
    that [in] and property reads see but [Object.keys] does not list
    (non-enumerable or inherited ones). *)
#[local] Unset Elimination Schemes.
Inductive value : Type :=
| VUndefined
| VNull
| VBool (b : bool)
| VNum (n : number)
| VBigInt (z : Z)
| VStr (s : string)
| VSymbol (id : nat)
| VFun (id : nat)
| VArr (m : matcher_property) (items : list value) (rest : list (string * value))
| VObj (m : matcher_property) (own : list (string * value)) (rest : list (string * value)).

#[local] Set Elimination Schemes.

Definition props := list (string * value).

(** Induction over values that reaches the elements of an array and the
    own properties of an object. *)
Section ValueInd.
Variable P : value -> Prop.
Hypothesis Hundef : P VUndefined.
Hypothesis Hnull : P VNull.
Hypothesis Hbool : forall b, P (VBool b).
Hypothesis Hnum : forall n, P (VNum n).
Hypothesis Hbig : forall z, P (VBigInt z).
Hypothesis Hstr : forall s, P (VStr s).
Hypothesis Hsym : forall id, P (VSymbol id).
Hypothesis Hfun : forall id, P (VFun id).
Hypothesis Harr : forall m items rest, Forall P items -> P (VArr m items rest).
Hypothesis Hobj : forall m own rest,
    Forall (fun kv => P (snd kv)) own -> P (VObj m own rest).

Fixpoint value_ind (v : value) : P v :=
  match v with
  | VUndefined => Hundef
  | VNull => Hnull
  | VBool b => Hbool b
  | VNum n => Hnum n
  | VBigInt z => Hbig z
  | VStr s => Hstr s
  | VSymbol id => Hsym id
  | VFun id => Hfun id
  | VArr m items rest =>
      Harr m items rest
        ((fix all (l : list value) : Forall P l :=
            match l with
            | [] => Forall_nil P
            | x :: l' => Forall_cons x (value_ind x) (all l')
            end) items)
  | VObj m own rest =>
      Hobj m own rest
        ((fix all (l : props) : Forall (fun kv => P (snd kv)) l :=
            match l with
            | [] => Forall_nil _
            | kv :: l' =>
                Forall_cons (P := fun kv => P (snd kv)) kv
                  (value_ind (snd kv)) (all l')
            end) own)
  end.
End ValueInd.

(** ** Built-in operations *)

(** [Boolean(v)] *)
Definition ToBoolean (v : value) : bool :=
  match v with
  | VUndefined | VNull => false
  | VBool b => b
  | VNum NaN | VNum (Zero _) => false
  | VNum _ => true
  | VBigInt z => negb (Z.eqb z 0)
  | VStr s => negb (String.eqb s "")
  | VSymbol _ | VFun _ | VArr _ _ _ | VObj _ _ _ => true
  end.

(** [typeof v] *)
Definition typeof (v : value) : string :=
  match v with
  | VUndefined => "undefined"
  | VNull => "object"
  | VBool _ => "boolean"
  | VNum _ => "number"
  | VBigInt _ => "bigint"
  | VStr _ => "string"
  | VSymbol _ => "symbol"
  | VFun _ => "function"
  | VArr _ _ _ | VObj _ _ _ => "object"
  end.

Definition Array_isArray (v : value) : bool :=
  match v with
  | VArr _ _ _ => true
  | _ => false
  end.

Definition number_eqb (a b : number) : bool :=
  match a, b with
  | NaN, NaN => true
  | Zero s, Zero t => Bool.eqb s t
  | Infinity s, Infinity t => Bool.eqb s t
  | Finite s m e, Finite t n f => Bool.eqb s t && Pos.eqb m n && Z.eqb e f
  | _, _ => false
  end.

(** [Object.is(x, y)], the SameValue comparison.  Composite values carry
    no identity in the tree model; SameValue of a composite with a
    non-composite is false, and the engine only calls [Object.is] with a
    non-composite [y]. *)
Definition Object_is (x y : value) : bool :=
  match x, y with
  | VUndefined, VUndefined => true
  | VNull, VNull => true
  | VBool a, VBool b => Bool.eqb a b
  | VNum a, VNum b => number_eqb a b
  | VBigInt a, VBigInt b => Z.eqb a b
  | VStr a, VStr b => String.eqb a b
  | VSymbol a, VSymbol b => Nat.eqb a b
  | VFun a, VFun b => Nat.eqb a b
  | _, _ => false
  end.

(** The number [n], as an array length. *)
Fixpoint odd_part (m : positive) (e : Z) : positive * Z :=
  match m with
  | xO m' => odd_part m' (e + 1)
  | _ => (m, e)
  end.

Definition number_of_nat (n : nat) : number :=
  match n with
  | O => Zero false
  | S _ => let (m, e) := odd_part (Pos.of_nat n) 0 in Finite false m e
  end.

(** [String(n)] for an array index. *)
Definition string_of_nat (n : nat) : string :=
  NilZero.string_of_uint (Nat.to_uint n).

(** The index below [len] that the property key [k] denotes, if any. *)
Definition index_of_key (k : string) (len : nat) : option nat :=
  find (fun i => String.eqb (string_of_nat i) k) (seq 0 len).

Definition mem (k : string) (ks : list string) : bool :=
  existsb (String.eqb k) ks.

Fixpoint lookup (l : props) (k : string) : option value :=
  match l with
  | [] => None
  | (k', v) :: l' => if String.eqb k k' then Some v else lookup l' k
  end.

(** The distinct keys of an association list, in order of first binding. *)
Fixpoint uniq (ks : list string) : list string :=
  match ks with
  | [] => []
  | k :: ks' => k :: filter (fun k' => negb (String.eqb k' k)) (uniq ks')
  end.

Definition keys (l : props) : list string := uniq (map fst l).

(** [Object.keys(o)]: the own enumerable string keys. *)
Definition Object_keys (o : value) : list string :=
  match o with
  | VObj _ own _ => keys own
  | VArr _ items _ => map string_of_nat (seq 0 (List.length items))
  | _ => []
  end.

(** [k in o] for a composite [o]. *)
Definition has_property (o : value) (k : string) : bool :=
  match o with
  | VArr _ items rest =>
      match index_of_key k (List.length items) with
      | Some _ => true
      | None => String.eqb k "length" || mem k (map fst rest)
      end
  | VObj _ own rest => mem k (map fst own) || mem k (map fst rest)
  | _ => false
  end.

Definition or_undefined (o : option value) : value :=
  match o with
  | Some v => v
  | None => VUndefined
  end.

(** [o[k]] for a composite [o]. *)
Definition get_property (o : value) (k : string) : value :=
  match o with
  | VArr _ items rest =>
      match index_of_key k (List.length items) with
      | Some i => nth i items VUndefined
      | None =>
          if String.eqb k "length" then VNum (number_of_nat (List.length items))
          else or_undefined (lookup rest k)
      end
  | VObj _ own rest =>
      match lookup own k with
      | Some v => v
      | None => or_undefined (lookup rest k)
      end
  | _ => VUndefined
  end.

(** [o[i]] for a numeric index [i]. *)
Definition get_index (o : value) (i : nat) : value :=
  match o with
  | VArr _ items _ => nth i items VUndefined
  | _ => get_property o (string_of_nat i)
  end.

(** [Object.values(o)] of a record. *)
Definition Object_values (o : value) : list value :=
  map (get_property o) (Object_keys o).

(** ** Computations: a trace of host calls and a completion *)

(** A property of an object: the one under [symbols.matcher], or a
    string-keyed one (an array index [i] is the key [String(i)]). *)
Inductive property_key : Type :=
| MatcherKey
| Named (k : string).

(** Calls into host code, in the order they are made.  [CallMatch f v] is
    the call [matcher.match(v)] on the protocol object that the accessor
    function [f] returns, [CallGetSelectionKeys f] the call of that
    object's [getSelectionKeys()], and [CallSelect k v] the call
    [select(k, v)] of the callback given to [matchPattern].  The engine
    of [General] also records [CallAccessor f], the call
    [x[symbols.matcher]()] of the function [f] itself, and
    [CallGetter o p], the call of the getter that defines the property
    [p] of [o], made when the property is read. *)
Inductive event : Type :=
| CallMatch (f : nat) (v : value)
| CallGetSelectionKeys (f : nat)
| CallSelect (key : string) (v : value)
| CallAccessor (f : nat)
| CallGetter (o : value) (p : property_key).

Inductive completion (A : Type) : Type :=
| Normal (a : A)
| Throw (e : value).
Arguments Normal {A} a.
Arguments Throw {A} e.

Definition M (A : Type) : Type := (list event * completion A)%type.

Definition ret {A} (a : A) : M A := ([], Normal a).
Definition throw {A} (e : value) : M A := ([], Throw e).
Definition bind {A B} (m : M A) (k : A -> M B) : M B :=
  match m with
  | (t, Normal a) => let (t', c) := k a in (t ++ t', c)
  | (t, Throw e) => (t, Throw e)
  end.
Definition emit (ev : event) : M unit := ([ev], Normal tt).

Notation "x <- m ;; k" := (bind m (fun x => k))
  (at level 61, m at next level, right associativity).
Notation "m ;;; k" := (bind m (fun _ => k))
  (at level 61, right associativity).

Definition trace {A} (m : M A) : list event := fst m.
Definition outcome {A} (m : M A) : completion A := snd m.

(** The error the runtime raises when a non-callable is called or a
    property of a non-object is tested. *)
Definition TypeError : value := VObj Absent [] [("name", VStr "TypeError")].

(** [xs.every(f)]: stops at the first element for which [f] is false. *)
Definition every {A} (f : A -> M bool) : list A -> M bool :=
  fix go (xs : list A) : M bool :=
    match xs with
    | [] => ret true
    | x :: xs' => b <- f x ;; if b then go xs' else ret false
    end.

(** [xs.every((x, i) => f(x, i))], the index counted from [i]. *)
Definition everyi {A} (f : A -> nat -> M bool) : list A -> nat -> M bool :=
  fix go (xs : list A) (i : nat) : M bool :=
    match xs with
    | [] => ret true
    | x :: xs' => b <- f x i ;; if b then go xs' (S i) else ret false
    end.

(** [xs.forEach(f)] *)
Definition forEach {A} (f : A -> M unit) : list A -> M unit :=
  fix go (xs : list A) : M unit :=
    match xs with
    | [] => ret tt
    | x :: xs' => f x ;;; go xs'
    end.

(** [xs.reduce(f, init)] *)
Definition reduce {A B} (f : B -> A -> M B) : list A -> B -> M B :=
  fix go (xs : list A) (acc : B) : M B :=
    match xs with
    | [] => ret acc
    | x :: xs' => acc' <- f acc x ;; go xs' acc'
    end.

(** [flatMap], helpers.ts 91-94:
    [xs.reduce((acc, p) => acc.concat(f(p)), [])]. *)
Definition flatMap {A B} (xs : list A) (f : A -> M (list B)) : M (list B) :=
  reduce (fun acc p => r <- f p ;; ret (acc ++ r)) xs [].

(** [k in o]: a [TypeError] unless [o] is an object or a function. *)
Definition js_in (k : string) (o : value) : M bool :=
  match o with
  | VArr _ _ _ | VObj _ _ _ | VFun _ => ret (has_property o k)
  | _ => throw TypeError
  end.

(** [o[k]]: a [TypeError] on [undefined] and [null].  The properties of
    functions and of primitive wrappers are not modelled: the engine reads
    string-keyed properties of composite values only. *)
Definition js_get (o : value) (k : string) : M value :=
  match o with
  | VUndefined | VNull => throw TypeError
  | _ => ret (get_property o k)
  end.

Definition js_get_index (o : value) (i : nat) : M value :=
  match o with
  | VUndefined | VNull => throw TypeError
  | _ => ret (get_index o i)
  end.

(** ** The matcher protocol ([types/Pattern.ts]) *)

Inductive MatcherType : Type :=
| not_ | optional | or_ | and_ | array | map_ | set_ | select_ | default | custom.

Definition MatcherType_eqb (a b : MatcherType) : bool :=
  match a, b with
  | not_, not_ | optional, optional | or_, or_ | and_, and_ | array, array
  | map_, map_ | set_, set_ | select_, select_ | default, default
  | custom, custom => true
  | _, _ => false
  end.

(** [MatchResult = { matched: boolean; selections?: Record<string, any> }] *)
Record MatchResult : Type := {
  matched : bool;
  selections : option props
}.

(** [MatcherProtocol]: [match] may throw (a faulting predicate);
    [getSelectionKeys], when the matcher has one, returns its names;
    [getSelectionKeys] and [matcherType] are optional members. *)
Record MatcherProtocol : Type := {
  match_ : value -> completion MatchResult;
  getSelectionKeys_ : option (list string);
  matcherType : option MatcherType
}.

(** [f(o[k])] computed along the own properties [l] of [o]: the first
    binding of [k] is [o[k]]; [dflt] stands for [f(undefined)] when [k] is
    not bound. *)
Definition lookup_with {R} (f : value -> R) (dflt : R) : props -> string -> R :=
  fix go (l : props) (k : string) : R :=
    match l with
    | [] => dflt
    | (k', p) :: l' => if String.eqb k k' then f p else go l' k
    end.

(** [v.length] of an array. *)
Definition length_of (v : value) : nat :=
  match v with
  | VArr _ items _ => List.length items
  | _ => 0
  end.

Definition truthy_property (m : matcher_property) : bool :=
  match m with
  | Accessor _ => true
  | Absent | Falsy => false
  end.

(** helpers.ts 12-13:
    [Boolean(value && typeof value === 'object')] *)
Definition isObject (value : value) : bool :=
  ToBoolean value && String.eqb (typeof value) "object".

(** ** The engine, whatever the host supplies *)

(** What the call [x[symbols.matcher]()] does when the value under the key
    is truthy: the value is not a function and the call raises a
    [TypeError]; or it is a function that throws; or it is a function
    that returns a protocol object, as the accessor of a Matcher does. *)
Inductive key_call : Type :=
| NotAFunction
| Raises (e : value)
| Returns (m : MatcherProtocol).

(** How the host defined a property: as a data property, read from the
    object; or by a getter, host code that the read calls and that
    returns the value the object holds there, or throws. *)
Inductive property_kind : Type :=
| Data
| GetterReturns
| GetterThrows (e : value).

(** helpers.ts 12-76 with nothing assumed of the value under
    [symbols.matcher], of the accessor, of the [select] callback or of
    the way the properties of patterns and values are defined.
    [Accessor f] is read here as: the truthy value [f] lies under the
    key, and [invoke f] tells what calling it does.  [select key v] is
    the completion of the callback on these arguments, and [getter o p]
    tells how the property [p] of [o] is defined.  The calls of accessors
    and of getters are events of the trace.  What is kept of the types:
    an accessor that returns gives a [MatcherProtocol], and a [match]
    that returns gives a [MatchResult]. *)
Module General.
Section Host.

Variable invoke : nat -> key_call.
Variable fn_matcher : nat -> matcher_property.
Variable select : string -> value -> completion unit.
Variable getter : value -> property_key -> property_kind.

(** The getter, if any, that a read of the property [p] of [o] calls. *)
Definition run_getter (o : value) (p : property_key) : M unit :=
  match getter o p with
  | Data => ret tt
  | GetterReturns => emit (CallGetter o p)
  | GetterThrows e => ([CallGetter o p], Throw e)
  end.

(** What [x] holds under [symbols.matcher]. *)
Definition symbols_matcher (x : value) : matcher_property :=
  match x with
  | VArr m _ _ | VObj m _ _ => m
  | VFun f => fn_matcher f
  | _ => Absent
  end.

(** [x[symbols.matcher]] *)
Definition get_matcher (x : value) : M matcher_property :=
  match x with
  | VUndefined | VNull => throw TypeError
  | _ => run_getter x MatcherKey ;;; ret (symbols_matcher x)
  end.

(** [o[k]] *)
Definition get (o : value) (k : string) : M value :=
  match o with
  | VUndefined | VNull => throw TypeError
  | _ => run_getter o (Named k) ;;; ret (get_property o k)
  end.

(** [o[i]] for a numeric index [i]. *)
Definition get_at (o : value) (i : nat) : M value :=
  match o with
  | VUndefined | VNull => throw TypeError
  | _ => run_getter o (Named (string_of_nat i)) ;;; ret (get_index o i)
  end.

(** [x[symbols.matcher]()] *)
Definition invoke_matcher (x : value) : M (nat * MatcherProtocol) :=
  m <- get_matcher x ;;
  match m with
  | Accessor f =>
      match invoke f with
      | NotAFunction => throw TypeError
      | Raises e => ([CallAccessor f], Throw e)
      | Returns matcher => ([CallAccessor f], Normal (f, matcher))
      end
  | Absent | Falsy => throw TypeError
  end.

(** [matcher.match(value)], for the protocol object [matcher] that the
    accessor [f] returned. *)
Definition call_match (f : nat) (matcher : MatcherProtocol) (v : value)
  : M MatchResult :=
  ([CallMatch f v], match_ matcher v).

(** [select(key, v)] *)
Definition call_select (key : string) (v : value) : M unit :=
  ([CallSelect key v], select key v).

(** helpers.ts 16-21: [pattern && !!pattern[symbols.matcher]], the value
    the expression has: [pattern] itself when it is falsy. *)
Definition isMatcher (x : value) : M value :=
  if ToBoolean x then
    m <- get_matcher x ;; ret (VBool (truthy_property m))
  else ret x.

(** helpers.ts 24-28:
    [isMatcher(x) && x[symbols.matcher]().matcherType === 'optional'] *)
Definition isOptionalPattern (x : value) : M value :=
  im <- isMatcher x ;;
  if ToBoolean im then
    fm <- invoke_matcher x ;;
    ret (VBool match matcherType (snd fm) with
               | Some t => MatcherType_eqb t optional
               | None => false
               end)
  else ret im.

(** helpers.ts 40-44, for the protocol object [matcher] that the accessor
    [f] returned. *)
Definition run_match (f : nat) (matcher : MatcherProtocol) (v : value) : M bool :=
  r <- call_match f matcher v ;;
  match matched r, selections r with
  | true, Some sels =>
      forEach (fun key => call_select key (or_undefined (lookup sels key)))
              (keys sels)
  | _, _ => ret tt
  end ;;;
  ret (matched r).

(** helpers.ts 32-76.  [pattern.every] reads [pattern[i]] before it calls
    back, and line 61 reads [pattern[k]] before anything else is done
    with the key. *)
Fixpoint matchPattern (pattern value : value) {struct pattern} : M bool :=
  if isObject pattern then
    im <- isMatcher pattern ;;
    if ToBoolean im then
      fm <- invoke_matcher pattern ;;
      run_match (fst fm) (snd fm) value
    else if negb (isObject value) then ret false
    else
      match pattern with
      | VArr _ items _ =>
          if negb (Array_isArray value) then ret false
          else if Nat.eqb (List.length items) (length_of value) then
            everyi (fun subPattern i =>
                      run_getter pattern (Named (string_of_nat i)) ;;;
                      elem <- get_at value i ;;
                      matchPattern subPattern elem)
                   items 0
          else ret false
      | VObj _ own _ =>
          every (fun k =>
                   run_getter pattern (Named k) ;;;
                   let subPattern := get_property pattern k in
                   present <- js_in k value ;;
                   ok <- (if present then ret (VBool true)
                          else isOptionalPattern subPattern) ;;
                   if ToBoolean ok then
                     field <- get value k ;;
                     lookup_with matchPattern
                       (fun v => ret (Object_is v VUndefined)) own k field
                   else ret false)
                (Object_keys pattern)
      | _ => ret false
      end
  else ret (Object_is value pattern).

(** The matcher branch, helpers.ts 39-44, for a pattern that holds the
    truthy value [f] under the key: the call [f()], then [match] of what
    it returned and the [select] calls. *)
Definition delegate (f : nat) (v : value) : M bool :=
  match invoke f with
  | NotAFunction => throw TypeError
  | Raises e => ([CallAccessor f], Throw e)
  | Returns matcher => emit (CallAccessor f) ;;; run_match f matcher v
  end.

(** The host call [ev] threw [e]. *)
Definition faulted (ev : event) (e : value) : Prop :=
  match ev with
  | CallAccessor f => invoke f = Raises e
  | CallMatch f v =>
      exists matcher, invoke f = Returns matcher /\ match_ matcher v = Throw e
  | CallSelect key v => select key v = Throw e
  | CallGetter o p => getter o p = GetterThrows e
  | CallGetSelectionKeys _ => False
  end.

(** The truthy values held under the matcher key anywhere in a pattern:
    by its composite nodes and by the functions in it. *)
Fixpoint truthy_keys (pattern : value) : list nat :=
  match symbols_matcher pattern with
  | Accessor f => [f]
  | Absent | Falsy => []
  end ++
  match pattern with
  | VArr _ items _ => List.concat (map truthy_keys items)
  | VObj _ own _ => List.concat (map (fun kv => truthy_keys (snd kv)) own)
  | _ => []
  end.

(** How [matchPattern] may throw [e] after the events [t]: the last event
    is a host call that threw [e]; or [e] is the [TypeError] of calling a
    value that the pattern holds under the matcher key and that is not a
    function. *)
Definition thrown (pattern : value) (t : list event) (e : value) : Prop :=
  (exists t' ev, t = t' ++ [ev] /\ faulted ev e) \/
  (e = TypeError /\ exists f, In f (truthy_keys pattern) /\ invoke f = NotAFunction).

(** Nothing is caught: a host call of the computation that threw is its
    last event, and what it threw is the outcome. *)
Definition uncaught {A} (m : M A) : Prop :=
  forall t1 ev t2 e,
    trace m = t1 ++ ev :: t2 -> faulted ev e ->
    t2 = [] /\ outcome m = Throw e.

(** The call of a getter that returned. *)
Definition getter_returned (ev : event) : Prop :=
  match ev with
  | CallGetter o p => getter o p = GetterReturns
  | _ => False
  end.

(** A computation that returns, having called nothing but getters that
    returned. *)
Definition returns_quietly {A} (m : M A) : Prop :=
  exists t a, m = (t, Normal a) /\ Forall getter_returned t.

End Host.
End General.

Definition is_CallAccessor (ev : event) : bool :=
  match ev with
  | CallAccessor _ => true
  | _ => false
  end.

(** A computation with the calls of accessors left out of its trace. *)
Definition without_accessor_calls {A} (m : M A) : M A :=
  (filter (fun ev => negb (is_CallAccessor ev)) (fst m), snd m).


(** ** Vocabulary of the statements *)

(** The [select] calls that follow a [match] returning [r]
    (helpers.ts 41-43). *)
Definition select_calls (r : MatchResult) : list event :=
  match matched r, selections r with
  | true, Some sels =>
      map (fun key => CallSelect key (or_undefined (lookup sels key))) (keys sels)
  | _, _ => []
  end.

Definition is_CallMatch (ev : event) : bool :=
  match ev with
  | CallMatch _ _ => true
  | _ => false
  end.

Definition is_CallSelect (ev : event) : bool :=
  match ev with
  | CallSelect _ _ => true
  | _ => false
  end.

Definition count (p : event -> bool) (t : list event) : nat :=
  List.length (filter p t).

(** A property of thrown computations that survives earlier events. *)
Definition prefix_closed (Q : list event -> value -> Prop) : Prop :=
  forall t0 t e, Q t e -> Q (t0 ++ t) e.

(** ** A host for the examples *)

(** Accessor 0 is [P.select('x')]: it matches every value and binds it to
    [x].  Accessor 1 is [P.optional(P.number)].  Accessor 2 is a guard
    whose predicate throws.  Every other accessor is a guard that never
    matches. *)
Definition host_call (f : nat) : MatcherProtocol :=
  match f with
  | 0 => {| match_ := fun v =>
              Normal {| matched := true; selections := Some [("x", v)] |};
            getSelectionKeys_ := Some ["x"];
            matcherType := Some select_ |}
  | 1 => {| match_ := fun v =>
              Normal {| matched := match v with
                                   | VUndefined | VNum _ => true
                                   | _ => false
                                   end;
                        selections := None |};
            getSelectionKeys_ := None;
            matcherType := Some optional |}
  | 2 => {| match_ := fun _ => Throw (VStr "boom");
            getSelectionKeys_ := None;
            matcherType := None |}
  | _ => {| match_ := fun _ => Normal {| matched := false; selections := None |};
            getSelectionKeys_ := None;
            matcherType := None |}
  end.

(** No function of the example host carries the matcher key. *)
Definition host_fn (f : nat) : matcher_property := Absent.

Definition num (n : nat) : value := VNum (number_of_nat n).

(** [P.select('x')], [P.optional(P.number)] and the faulting guard. *)
Definition select_x : value := VObj (Accessor 0) [] [].
Definition optional_number : value := VObj (Accessor 1) [] [].
Definition faulty_guard : value := VObj (Accessor 2) [] [].

(** [[P.select('x'), 1]] and [[5, 2]]. *)
Definition select_then_one : value := VArr Absent [select_x; num 1] [].
Definition five_two : value := VArr Absent [num 5; num 2] [].

(** [{ a: 1 }] carrying a falsy property under [symbols.matcher], as in
    [{ a: 1, [symbols.matcher]: undefined }]. *)
Definition falsy_key_record : value := VObj Falsy [("a", num 1)] [].

(** A host for [General]: under the key, the value 5 is not a function
    (as [true] in [{ a: 1, [symbols.matcher]: true }]), the function 6
    throws, and every other value is the accessor of the example host. *)
Definition any_invoke (f : nat) : key_call :=
  match f with
  | 5 => NotAFunction
  | 6 => Raises (VStr "accessor")
  | _ => Returns (host_call f)
  end.

Definition truthy_key_record : value := VObj (Accessor 5) [("a", num 1)] [].
Definition throwing_accessor_record : value := VObj (Accessor 6) [("a", num 1)] [].

(** A [select] callback that returns, and one that throws. *)
Definition quiet_select (key : string) (v : value) : completion unit := Normal tt.
Definition faulty_select (key : string) (v : value) : completion unit :=
  Throw (VStr "select").

(** Properties defined as data properties everywhere; and a host where
    the property [a] of the objects that hold a property [guarded] is
    defined by a getter that throws. *)
Definition plain_getter (o : value) (p : property_key) : property_kind := Data.
Definition guarded_getter (o : value) (p : property_key) : property_kind :=
  match p with
  | Named k =>
      if String.eqb k "a" && has_property o "guarded"
      then GetterThrows (VStr "getter") else Data
  | MatcherKey => Data
  end.

(** [{ a: 1 }], and the same with the getter. *)
Definition record_a1 : value := VObj Absent [("a", num 1)] [].
Definition guarded_record : value :=
  VObj Absent [("a", num 1)] [("guarded", VBool true)].

(** [{ a: [1, NaN], f: someFunction }] *)
Definition plain_pattern : value :=
  VObj Absent [("a", VArr Absent [num 1; VNum NaN] []); ("f", VFun 7)] [].

(** ** The engine (helpers.ts), as its signatures type it *)

Section Engine.

(** The host: [call f] is the protocol object that the function [f]
    returns when called as [x[symbols.matcher]()], and [fn_matcher f]
    the property that the function object [f] itself carries under
    [symbols.matcher].  Matchers are stateless, so both are fixed.
    Every truthy value under the key is such an accessor, and calling it
    or reading a property runs no other host code; [isMatcher] and
    [isOptionalPattern] are given as the booleans the engine tests. *)
Variable call : nat -> MatcherProtocol.
Variable fn_matcher : nat -> matcher_property.

(** [x[symbols.matcher]] *)
Definition symbols_matcher (x : value) : matcher_property :=
  match x with
  | VArr m _ _ | VObj m _ _ => m
  | VFun f => fn_matcher f
  | _ => Absent
  end.

(** [x[symbols.matcher]()]: the protocol object, named by the accessor
    that returns it.  The accessor only builds that object; its call is
    not an event of the trace. *)
Definition invoke_matcher (x : value) : M nat :=
  match symbols_matcher x with
  | Accessor f => ret f
  | Absent | Falsy => throw TypeError
  end.

(** [matcher.match(value)] *)
Definition call_match (matcher : nat) (v : value) : M MatchResult :=
  ([CallMatch matcher v], match_ (call matcher) v).

(** [select(key, v)] *)
Definition select (key : string) (v : value) : M unit :=
  emit (CallSelect key v).

(** helpers.ts 16-21: [pattern && !!pattern[symbols.matcher]], as the
    condition the engine tests: [Boolean] of what the expression gives
    (the expression gives [x] itself when [x] is falsy, see
    [General.isMatcher]). *)
Definition isMatcher (x : value) : bool :=
  ToBoolean x && truthy_property (symbols_matcher x).

(** helpers.ts 24-28:
    [isMatcher(x) && x[symbols.matcher]().matcherType === 'optional'],
    as the condition the engine tests. *)
Definition isOptionalPattern (x : value) : M bool :=
  if isMatcher x then
    matcher <- invoke_matcher x ;;
    ret (match matcherType (call matcher) with
         | Some t => MatcherType_eqb t optional
         | None => false
         end)
  else ret false.

(** helpers.ts 32-76.  The recursive call on [pattern[k]] is made along
    the own properties of [pattern] ([lookup_with]); [matchPattern_record]
    below states it on [pattern[k]]. *)
Fixpoint matchPattern (pattern value : value) {struct pattern} : M bool :=
  if isObject pattern then
    if isMatcher pattern then
      matcher <- invoke_matcher pattern ;;
      r <- call_match matcher value ;;
      match matched r, selections r with
      | true, Some sels =>
          forEach (fun key => select key (or_undefined (lookup sels key)))
                  (keys sels)
      | _, _ => ret tt
      end ;;;
      ret (matched r)
    else if negb (isObject value) then ret false
    else
      match pattern with
      | VArr _ items _ =>
          if negb (Array_isArray value) then ret false
          else if Nat.eqb (List.length items) (length_of value) then
            everyi (fun subPattern i =>
                      elem <- js_get_index value i ;;
                      matchPattern subPattern elem)
                   items 0
          else ret false
      | VObj _ own _ =>
          every (fun k =>
                   let subPattern := get_property pattern k in
                   present <- js_in k value ;;
                   ok <- (if present then ret true
                          else isOptionalPattern subPattern) ;;
                   if ok then
                     field <- js_get value k ;;
                     lookup_with matchPattern
                       (fun v => ret (Object_is v VUndefined)) own k field
                   else ret false)
                (Object_keys pattern)
      | _ => ret false
      end
  else ret (Object_is value pattern).

(** helpers.ts 79-88 *)
Fixpoint getSelectionKeys (pattern : value) : M (list string) :=
  if isObject pattern then
    if isMatcher pattern then
      matcher <- invoke_matcher pattern ;;
      match getSelectionKeys_ (call matcher) with
      | Some ks => emit (CallGetSelectionKeys matcher) ;;; ret ks
      | None => ret []
      end
    else
      match pattern with
      | VArr _ items _ => flatMap items getSelectionKeys
      | VObj _ own _ =>
          flatMap (Object_keys pattern)
                  (fun k => lookup_with getSelectionKeys (ret []) own k)
      | _ => ret []
      end
  else ret [].

(** [matchPattern] returns [true]. *)
Definition succeeds (pattern value : value) : Prop :=
  outcome (matchPattern pattern value) = Normal true.

(** The matcher branch, helpers.ts 39-44, for the protocol object of the
    accessor [f]. *)
Definition delegate (f : nat) (v : value) : M bool :=
  match match_ (call f) v with
  | Normal r => (CallMatch f v :: select_calls r, Normal (matched r))
  | Throw e => ([CallMatch f v], Throw e)
  end.


(** [x] is a Matcher of the variant ['optional']: it holds an accessor
    under [symbols.matcher], and the protocol object that the accessor
    returns has the [matcherType] ['optional']. *)
Definition optional_matcher (x : value) : Prop :=
  exists f, symbols_matcher x = Accessor f /\
            matcherType (call f) = Some optional.

(** No composite node of the pattern is a matcher (a function is a
    literal whatever it carries under [symbols.matcher]). *)
Fixpoint matcher_free (pattern : value) : bool :=
  negb (isObject pattern && isMatcher pattern) &&
  match pattern with
  | VArr _ items _ => forallb matcher_free items
  | VObj _ own _ => forallb (fun kv => matcher_free (snd kv)) own
  | _ => true
  end.

(** The names [getSelectionKeys] returns. *)
Definition selection_keys_of (pattern : value) : list string :=
  match outcome (getSelectionKeys pattern) with
  | Normal ks => ks
  | Throw _ => []
  end.

(** The events of matching [items] against [elems] position by position,
    in the order of the positions. *)
Definition pairwise_trace (items elems : list value) : list event :=
  List.concat (map (fun pv => trace (matchPattern (fst pv) (snd pv)))
                   (combine items elems)).

(** The test made for the key [k] of a record pattern, whose sub-pattern
    is [sub], against [v] (helpers.ts 63-71). *)
Definition key_test (sub v : value) (k : string) : M bool :=
  present <- js_in k v ;;
  ok <- (if present then ret true else isOptionalPattern sub) ;;
  if ok then field <- js_get v k ;; matchPattern sub field else ret false.

(** The events of testing the keys of [own] against [v], in the order of
    the keys. *)
Definition keywise_trace (own : props) (v : value) : list event :=
  List.concat (map (fun kv => trace (key_test (snd kv) v (fst kv))) own).

(** The number of positions of a pattern that hold a Matcher and that
    the engine can reach.  A Matcher counts for one, whatever it
    contains; patterns are trees, so a Matcher object that sits at two
    positions counts for two. *)
Fixpoint matcher_nodes (pattern : value) : nat :=
  if isObject pattern && isMatcher pattern then 1
  else
    match pattern with
    | VArr _ items _ => list_sum (map matcher_nodes items)
    | VObj _ own _ => list_sum (map (fun kv => matcher_nodes (snd kv)) own)
    | _ => 0
    end.

(** ** Monad laws and the shape of iterations *)

Lemma bind_ret_l A B (a : A) (k : A -> M B) : bind (ret a) k = k a.
Proof. unfold bind, ret. destruct (k a); reflexivity. Qed.

Lemma bind_throw_l A B (e : value) (k : A -> M B) : bind (throw e) k = throw e.
Proof. reflexivity. Qed.

Lemma bind_ret_r A (m : M A) : bind m (fun a => ret a) = m.
Proof.
  destruct m as [t [a | e]]; unfold bind, ret; simpl;
    rewrite ?app_nil_r; reflexivity.
Qed.

Lemma outcome_bind A B (m : M A) (k : A -> M B) :
  outcome (bind m k) =
  match outcome m with
  | Normal a => outcome (k a)
  | Throw e => Throw e
  end.
Proof.
  destruct m as [t [a | e]]; unfold bind, outcome; simpl; [|reflexivity].
  destruct (k a); reflexivity.
Qed.

Lemma trace_bind A B (m : M A) (k : A -> M B) :
  trace (bind m k) =
  trace m ++ match outcome m with
             | Normal a => trace (k a)
             | Throw _ => []
             end.
Proof.
  destruct m as [t [a | e]]; unfold bind, outcome, trace; simpl.
  - destruct (k a); reflexivity.
  - rewrite app_nil_r; reflexivity.
Qed.

Lemma bind_assoc A B C (m : M A) (k : A -> M B) (h : B -> M C) :
  bind (bind m k) h = bind m (fun a => bind (k a) h).
Proof.
  destruct m as [t [a | e]]; unfold bind; [|reflexivity].
  destruct (k a) as [t1 [b | e1]]; [|reflexivity].
  destruct (h b) as [t2 c]. rewrite app_assoc; reflexivity.
Qed.

Lemma every_ext_in A (f g : A -> M bool) (l : list A) :
  (forall x, In x l -> f x = g x) -> every f l = every g l.
Proof.
  induction l as [| x l IH]; intros H; simpl; [reflexivity|].
  rewrite (H x (or_introl eq_refl)), IH; [reflexivity|].
  intros y Hy; apply H; right; exact Hy.
Qed.

Lemma every_all_true A (f : A -> M bool) (l : list A) :
  (forall x, In x l -> f x = ret true) -> every f l = ret true.
Proof.
  induction l as [| x l IH]; intros H; simpl; [reflexivity|].
  rewrite (H x (or_introl eq_refl)), bind_ret_l.
  apply IH; intros y Hy; apply H; right; exact Hy.
Qed.

Lemma every_succeeds A (f : A -> M bool) (l : list A) :
  outcome (every f l) = Normal true <->
  (forall x, In x l -> outcome (f x) = Normal true).
Proof.
  induction l as [| x l IH]; simpl.
  - split; [intros _ y []| reflexivity].
  - rewrite outcome_bind. split.
    + intros H y [<- | Hy].
      * destruct (outcome (f x)) as [[|]|]; try reflexivity; discriminate.
      * destruct (outcome (f x)) as [[|]|]; try discriminate.
        apply IH; assumption.
    + intros H. rewrite (H x (or_introl eq_refl)).
      apply IH; intros y Hy; apply H; right; exact Hy.
Qed.

Lemma everyi_succeeds A (f : A -> nat -> M bool) (l : list A) (i : nat) :
  outcome (everyi f l i) = Normal true <->
  (forall j x, nth_error l j = Some x -> outcome (f x (i + j)) = Normal true).
Proof.
  revert i; induction l as [| x l IH]; intros i; simpl.
  - split; [intros _ [|j] y; discriminate | reflexivity].
  - rewrite outcome_bind. split.
    + intros H [|j] y Hj; simpl in Hj.
      * injection Hj as <-. rewrite Nat.add_0_r.
        destruct (outcome (f x i)) as [[|]|]; try reflexivity; discriminate.
      * destruct (outcome (f x i)) as [[|]|]; try discriminate.
        rewrite <- Nat.add_succ_comm. apply (proj1 (IH (S i)) H); exact Hj.
    + intros H. generalize (H 0 x eq_refl); rewrite Nat.add_0_r; intros ->.
      apply IH; intros j y Hj. rewrite Nat.add_succ_comm. apply H; exact Hj.
Qed.

Lemma bind_throws A B (Q : list event -> value -> Prop) (m : M A) (k : A -> M B) :
  prefix_closed Q ->
  (forall t e, m = (t, Throw e) -> Q t e) ->
  (forall a t e, k a = (t, Throw e) -> Q t e) ->
  forall t e, bind m k = (t, Throw e) -> Q t e.
Proof.
  intros HQ Hm Hk t e. destruct m as [t1 [a | e1]]; unfold bind.
  - destruct (k a) as [t2 c] eqn:E. intros H; injection H as <- ->.
    apply HQ. apply (Hk a); exact E.
  - intros H; injection H as <- <-. apply Hm; reflexivity.
Qed.

Lemma every_throws A (Q : list event -> value -> Prop) (f : A -> M bool) (l : list A) :
  prefix_closed Q ->
  (forall x t e, In x l -> f x = (t, Throw e) -> Q t e) ->
  forall t e, every f l = (t, Throw e) -> Q t e.
Proof.
  intros HQ. induction l as [| x l IH]; intros H t e; simpl.
  - discriminate.
  - apply bind_throws; [exact HQ | |].
    + intros t' e'; apply H; left; reflexivity.
    + intros [|] t' e'; [|discriminate].
      apply IH. intros y t'' e'' Hy; apply H; right; exact Hy.
Qed.

Lemma everyi_throws A (Q : list event -> value -> Prop)
      (f : A -> nat -> M bool) (l : list A) (i : nat) :
  prefix_closed Q ->
  (forall x j t e, In x l -> f x j = (t, Throw e) -> Q t e) ->
  forall t e, everyi f l i = (t, Throw e) -> Q t e.
Proof.
  intros HQ. revert i; induction l as [| x l IH]; intros i H t e; simpl.
  - discriminate.
  - apply bind_throws; [exact HQ | |].
    + intros t' e'; apply H; left; reflexivity.
    + intros [|] t' e'; [|discriminate].
      apply IH. intros y j t'' e'' Hy; apply H; right; exact Hy.
Qed.

(** ** Keys and lookups *)

Lemma mem_In k ks : mem k ks = true <-> In k ks.
Proof.
  unfold mem. rewrite existsb_exists. split.
  - intros [x [Hx E]]. apply String.eqb_eq in E; subst; exact Hx.
  - intros H; exists k; split; [exact H | apply String.eqb_refl].
Qed.

Lemma In_uniq k ks : In k (uniq ks) <-> In k ks.
Proof.
  induction ks as [| x ks IH]; simpl; [tauto|].
  rewrite filter_In, IH. split.
  - intros [H | [H _]]; auto.
  - intros [H | H]; auto.
    destruct (String.eqb k x) eqn:E.
    + apply String.eqb_eq in E; auto.
    + right; split; [exact H | reflexivity].
Qed.

Lemma In_keys k (l : props) : In k (keys l) <-> In k (map fst l).
Proof. apply In_uniq. Qed.

Lemma lookup_In (l : props) k :
  In k (map fst l) -> exists v, lookup l k = Some v /\ In (k, v) l.
Proof.
  induction l as [| [k' v] l IH]; simpl; [intros []|].
  intros H. destruct (String.eqb k k') eqn:E.
  - apply String.eqb_eq in E; subst. exists v; auto.
  - destruct H as [H | H].
    + subst; rewrite String.eqb_refl in E; discriminate.
    + destruct (IH H) as [w [Hw Hin]]; exists w; auto.
Qed.

Lemma lookup_None (l : props) k :
  mem k (map fst l) = false -> lookup l k = None.
Proof.
  induction l as [| [k' v] l IH]; simpl; [reflexivity|].
  unfold mem; simpl. intros H; apply orb_false_iff in H as [E H].
  rewrite E. apply IH; exact H.
Qed.

Lemma lookup_with_lookup R (f : value -> R) (dflt : R) (l : props) k :
  lookup_with f dflt l k =
  match lookup l k with
  | Some p => f p
  | None => dflt
  end.
Proof.
  induction l as [| [k' v] l IH]; simpl; [reflexivity|].
  destruct (String.eqb k k'); [reflexivity | exact IH].
Qed.

(** ** The branches of [matchPattern] and [getSelectionKeys] *)

Lemma forEach_select (g : string -> value) (ks : list string) :
  forEach (fun key => select key (g key)) ks =
  (map (fun key => CallSelect key (g key)) ks, Normal tt).
Proof.
  induction ks as [| k ks IH]; simpl; [reflexivity|].
  rewrite IH; reflexivity.
Qed.

Lemma isObject_shape p :
  isObject p = true ->
  (exists m items rest, p = VArr m items rest) \/
  (exists m own rest, p = VObj m own rest).
Proof.
  destruct p; unfold isObject; simpl; eauto;
    rewrite ?andb_false_r; discriminate.
Qed.

Lemma isMatcher_composite p :
  isObject p = true -> isMatcher p = truthy_property (symbols_matcher p).
Proof.
  intros H; destruct (isObject_shape p H) as [(m & i & r & ->) | (m & o & r & ->)];
    reflexivity.
Qed.

Lemma matchPattern_matcher p v f :
  isObject p = true -> symbols_matcher p = Accessor f ->
  matchPattern p v = delegate f v.
Proof.
  intros Ho Hm.
  assert (E : matchPattern p v =
              (matcher <- invoke_matcher p ;;
               r <- call_match matcher v ;;
               match matched r, selections r with
               | true, Some sels =>
                   forEach (fun key => select key (or_undefined (lookup sels key)))
                           (keys sels)
               | _, _ => ret tt
               end ;;; ret (matched r))).
  { destruct (isObject_shape p Ho) as [(m & i & r & ->) | (m & o & r & ->)];
      simpl in Hm; subst m; reflexivity. }
  rewrite E. unfold invoke_matcher. rewrite Hm, bind_ret_l.
  unfold call_match, delegate, select_calls.
  destruct (match_ (call f) v) as [[[|] [sels|]] | e]; simpl;
    rewrite ?forEach_select; simpl; rewrite ?app_nil_r; reflexivity.
Qed.

Lemma matchPattern_literal p v :
  isObject p = false -> matchPattern p v = ret (Object_is v p).
Proof.
  destruct p; intros H; try reflexivity; try discriminate H;
    cbn -[ToBoolean]; unfold isObject; cbn -[ToBoolean];
    rewrite andb_false_r; reflexivity.
Qed.

Lemma matchPattern_array m items rest v :
  truthy_property m = false ->
  matchPattern (VArr m items rest) v =
  if negb (isObject v) then ret false
  else if negb (Array_isArray v) then ret false
  else if Nat.eqb (List.length items) (length_of v) then
    everyi (fun subPattern i =>
              elem <- js_get_index v i ;; matchPattern subPattern elem)
           items 0
  else ret false.
Proof.
  intros Hm. simpl. unfold isMatcher. simpl. rewrite Hm. reflexivity.
Qed.

Lemma matchPattern_record m own rest v :
  truthy_property m = false ->
  matchPattern (VObj m own rest) v =
  if negb (isObject v) then ret false
  else
    every (fun k =>
             let subPattern := get_property (VObj m own rest) k in
             present <- js_in k v ;;
             ok <- (if present then ret true else isOptionalPattern subPattern) ;;
             if ok then field <- js_get v k ;; matchPattern subPattern field
             else ret false)
          (Object_keys (VObj m own rest)).
Proof.
  intros Hm. simpl. unfold isMatcher. simpl. rewrite Hm. simpl.
  destruct (negb (isObject v)); [reflexivity|].
  apply every_ext_in. intros k Hk.
  apply In_keys in Hk. destruct (lookup_In own k Hk) as [w [Hw _]].
  rewrite Hw. rewrite lookup_with_lookup, Hw. reflexivity.
Qed.

Lemma js_in_composite k v : isObject v = true -> js_in k v = ret (has_property v k).
Proof.
  intros H; destruct (isObject_shape v H) as [(m & i & r & ->) | (m & o & r & ->)];
    reflexivity.
Qed.

Lemma js_get_composite v k : isObject v = true -> js_get v k = ret (get_property v k).
Proof.
  intros H; destruct (isObject_shape v H) as [(m & i & r & ->) | (m & o & r & ->)];
    reflexivity.
Qed.

Lemma isOptionalPattern_returns x : exists b, isOptionalPattern x = ret b.
Proof.
  unfold isOptionalPattern, isMatcher, invoke_matcher.
  destruct (ToBoolean x); simpl; [|eexists; reflexivity].
  destruct (symbols_matcher x); simpl; eexists; reflexivity.
Qed.

Lemma isMatcher_accessor x :
  isMatcher x = true <-> exists f, symbols_matcher x = Accessor f.
Proof.
  unfold isMatcher. destruct (symbols_matcher x) as [| | f] eqn:E; simpl.
  - rewrite andb_false_r. split; [discriminate | intros [f H]; discriminate H].
  - rewrite andb_false_r. split; [discriminate | intros [f H]; discriminate H].
  - rewrite andb_true_r. split; [intros _; exists f; reflexivity | intros _].
    destruct x; simpl in E; try discriminate E; reflexivity.
Qed.

Lemma isOptionalPattern_accessor x f :
  symbols_matcher x = Accessor f ->
  isOptionalPattern x =
  ret (match matcherType (call f) with
       | Some t => MatcherType_eqb t optional
       | None => false
       end).
Proof.
  intros Hf. unfold isOptionalPattern, invoke_matcher.
  rewrite (proj2 (isMatcher_accessor x) (ex_intro _ f Hf)), Hf.
  apply bind_ret_l.
Qed.

Lemma isOptionalPattern_optional x :
  isOptionalPattern x = ret true <-> optional_matcher x.
Proof.
  assert (Heq : forall t, MatcherType_eqb t optional = true <-> t = optional).
  { intros t; destruct t; simpl; split; intros H; try discriminate; reflexivity. }
  unfold optional_matcher. split.
  - intros H. destruct (isMatcher x) eqn:Hm.
    + apply isMatcher_accessor in Hm as [f Hf]. exists f. split; [exact Hf|].
      rewrite (isOptionalPattern_accessor x f Hf) in H.
      destruct (matcherType (call f)) as [t|]; [|discriminate H].
      injection H as H. apply Heq in H; subst; reflexivity.
    + unfold isOptionalPattern in H. rewrite Hm in H. discriminate H.
  - intros (f & Hf & Ht). rewrite (isOptionalPattern_accessor x f Hf), Ht. reflexivity.
Qed.

Lemma absent_property_undefined v k :
  has_property v k = false -> get_property v k = VUndefined.
Proof.
  destruct v; try reflexivity; simpl.
  - destruct (index_of_key k (List.length items)); [discriminate|].
    intros H; apply orb_false_iff in H as [-> H].
    rewrite (lookup_None rest k H); reflexivity.
  - intros H; apply orb_false_iff in H as [H1 H2].
    rewrite (lookup_None own k H1), (lookup_None rest k H2); reflexivity.
Qed.

(** The test made for one key of a record pattern (helpers.ts 59-71),
    against a composite value. *)
Lemma record_key_succeeds sub v k :
  isObject v = true ->
  (outcome (present <- js_in k v ;;
            ok <- (if present then ret true else isOptionalPattern sub) ;;
            if ok then field <- js_get v k ;; matchPattern sub field
            else ret false) = Normal true
   <-> (has_property v k = true \/ optional_matcher sub) /\
       succeeds sub (get_property v k)).
Proof.
  intros Hv. rewrite (js_in_composite k v Hv), bind_ret_l.
  unfold succeeds. destruct (has_property v k).
  - rewrite bind_ret_l, (js_get_composite v k Hv), bind_ret_l.
    split; [intros H; split; [left; reflexivity | exact H] | intros [_ H]; exact H].
  - destruct (isOptionalPattern_returns sub) as [[|] Hb]; rewrite Hb, bind_ret_l.
    + rewrite (js_get_composite v k Hv), bind_ret_l.
      split; [|intros [_ H]; exact H].
      intros H; split; [right; apply isOptionalPattern_optional; exact Hb | exact H].
    + split; [discriminate|]. intros [[H | H] _]; [discriminate H|].
      apply isOptionalPattern_optional in H. rewrite Hb in H. discriminate H.
Qed.

Lemma composite_fails_on_primitive p v :
  isObject p = true -> isMatcher p = false -> isObject v = false ->
  matchPattern p v = ret false.
Proof.
  intros Hp Hm Hv. rewrite (isMatcher_composite p Hp) in Hm.
  destruct (isObject_shape p Hp) as [(m & i & r & ->) | (m & o & r & ->)];
    simpl in Hm.
  - rewrite (matchPattern_array m i r v Hm), Hv; reflexivity.
  - rewrite (matchPattern_record m o r v Hm), Hv; reflexivity.
Qed.

(** C1. A pattern that is a Matcher is delegated to its [match]:
    [matchPattern] calls [match(value)] exactly once and makes no other
    call into a matcher, whatever elements or properties the pattern
    object has; when [match] returns, [matchPattern] returns its
    [matched] flag, and calls [select(key, selections[key])] once for
    each key of [selections], in order, when [matched] is true and
    [selections] is present, and never otherwise. *)
Theorem matcher_pattern_delegates p v f :
  isObject p = true -> symbols_matcher p = Accessor f ->
  matchPattern p v = delegate f v
  /\ filter is_CallMatch (trace (matchPattern p v)) = [CallMatch f v]
  /\ (forall r, match_ (call f) v = Normal r ->
        outcome (matchPattern p v) = Normal (matched r)
        /\ (forall sels, matched r = true -> selections r = Some sels ->
              filter is_CallSelect (trace (matchPattern p v)) =
              map (fun key => CallSelect key (or_undefined (lookup sels key)))
                  (keys sels))
        /\ (matched r = false \/ selections r = None ->
              filter is_CallSelect (trace (matchPattern p v)) = []))
  /\ (forall p', isObject p' = true -> symbols_matcher p' = Accessor f ->
        matchPattern p' v = matchPattern p v).
Proof.
  intros Ho Hm. rewrite (matchPattern_matcher p v f Ho Hm).
  assert (Hsel : forall r, filter is_CallMatch (select_calls r) = []
                           /\ filter is_CallSelect (select_calls r) = select_calls r).
  { intros r; unfold select_calls.
    destruct (matched r); [|split; reflexivity].
    destruct (selections r) as [sels|]; [|split; reflexivity].
    induction (keys sels) as [| k ks [IH1 IH2]]; simpl; [split; reflexivity|].
    rewrite IH1, IH2; split; reflexivity. }
  split; [reflexivity|]. split; [|split].
  - unfold delegate. destruct (match_ (call f) v) as [r | e]; simpl.
    + rewrite (proj1 (Hsel r)); reflexivity.
    + reflexivity.
  - intros r Hr. unfold delegate; rewrite Hr; simpl.
    rewrite (proj2 (Hsel r)). split; [reflexivity|]. split.
    + intros sels H1 H2. unfold select_calls; rewrite H1, H2; reflexivity.
    + intros [H | H]; unfold select_calls; rewrite H; [reflexivity|].
      destruct (matched r); reflexivity.
  - intros p' Ho' Hm'. apply matchPattern_matcher; assumption.
Qed.

(** C2. A record pattern that is not a Matcher matches a composite value
    exactly when, for every key of the pattern, the key is in the value or
    the sub-pattern is an [optional] matcher (it holds an accessor whose
    protocol object has the [matcherType] ['optional']), and the
    sub-pattern matches the value's field, which is [undefined] when the
    key is absent.  The
    result only depends on the value through the keys of the pattern; the
    empty record pattern matches every composite value, arrays included;
    a composite pattern that is not a Matcher fails on every non-composite
    value. *)
Theorem record_pattern_matches m own rest v :
  truthy_property m = false ->
  (isObject v = true ->
   (succeeds (VObj m own rest) v <->
    forall k, In k (Object_keys (VObj m own rest)) ->
      (has_property v k = true \/
       optional_matcher (get_property (VObj m own rest) k)) /\
      succeeds (get_property (VObj m own rest) k) (get_property v k)))
  /\ (forall k, has_property v k = false -> get_property v k = VUndefined)
  /\ (forall v', isObject v = true -> isObject v' = true ->
        (forall k, In k (Object_keys (VObj m own rest)) ->
           has_property v k = has_property v' k /\
           get_property v k = get_property v' k) ->
        matchPattern (VObj m own rest) v = matchPattern (VObj m own rest) v')
  /\ (isObject v = true -> matchPattern (VObj m [] rest) v = ret true)
  /\ (forall m' items rest',
        matchPattern (VObj m [] rest) (VArr m' items rest') = ret true)
  /\ (forall p, isObject p = true -> isMatcher p = false ->
        isObject v = false -> matchPattern p v = ret false).
Proof.
  intros Hm. split; [|split; [|split; [|split; [|split]]]].
  - intros Hv. unfold succeeds at 1.
    rewrite (matchPattern_record m own rest v Hm), Hv; simpl negb; cbv iota.
    rewrite every_succeeds. split; intros H k Hk.
    + apply (record_key_succeeds _ v k Hv), H, Hk.
    + apply (record_key_succeeds _ v k Hv), H, Hk.
  - intros k; apply absent_property_undefined.
  - intros v' Hv Hv' Hagree.
    rewrite (matchPattern_record m own rest v Hm), (matchPattern_record m own rest v' Hm).
    rewrite Hv, Hv'; simpl negb; cbv iota.
    apply every_ext_in; intros k Hk. destruct (Hagree k Hk) as [Hh Hg]. cbv zeta.
    rewrite (js_in_composite k v Hv), (js_in_composite k v' Hv').
    rewrite (js_get_composite v k Hv), (js_get_composite v' k Hv').
    rewrite Hh, Hg; reflexivity.
  - intros Hv. rewrite (matchPattern_record m [] rest v Hm), Hv; reflexivity.
  - intros m' items rest'. rewrite (matchPattern_record m [] rest _ Hm); reflexivity.
  - intros p Hp Hnm Hv. apply composite_fails_on_primitive; assumption.
Qed.

Lemma Forall2_nth_error (R : value -> value -> Prop) (l1 l2 : list value) :
  List.length l2 = List.length l1 ->
  (Forall2 R l1 l2 <->
   forall j x, nth_error l1 j = Some x -> R x (nth j l2 VUndefined)).
Proof.
  revert l2; induction l1 as [| a l1 IH]; intros [| b l2] Hlen;
    try discriminate Hlen.
  - split; [intros _ [|j] x; discriminate | constructor].
  - injection Hlen as Hlen. split.
    + intros H; inversion H; subst. intros [|j] x Hj; simpl in *.
      * injection Hj as <-; assumption.
      * apply (proj1 (IH l2 Hlen)); assumption.
    + intros H; constructor.
      * apply (H 0 a eq_refl).
      * apply (IH l2 Hlen). intros j x Hj. apply (H (S j) x Hj).
Qed.

Lemma number_eqb_eq a b : number_eqb a b = true <-> a = b.
Proof.
  destruct a, b; simpl; split; intros H; try discriminate; try reflexivity.
  - apply Bool.eqb_prop in H; subst; reflexivity.
  - injection H as ->; apply Bool.eqb_reflx.
  - apply Bool.eqb_prop in H; subst; reflexivity.
  - injection H as ->; apply Bool.eqb_reflx.
  - apply andb_true_iff in H as [H He]. apply andb_true_iff in H as [Hs Hm].
    apply Bool.eqb_prop in Hs. apply Pos.eqb_eq in Hm. apply Z.eqb_eq in He.
    subst; reflexivity.
  - injection H as -> -> ->.
    rewrite Bool.eqb_reflx, Pos.eqb_refl, Z.eqb_refl; reflexivity.
Qed.

Lemma Object_is_eq v p : isObject p = false -> (Object_is v p = true <-> v = p).
Proof.
  intros Hp. destruct p; try discriminate Hp;
    destruct v; simpl; split; intros H; try discriminate; try reflexivity.
  - apply Bool.eqb_prop in H; subst; reflexivity.
  - injection H as ->; apply Bool.eqb_reflx.
  - apply number_eqb_eq in H; subst; reflexivity.
  - injection H as ->; apply number_eqb_eq; reflexivity.
  - apply Z.eqb_eq in H; subst; reflexivity.
  - injection H as ->; apply Z.eqb_refl.
  - apply String.eqb_eq in H; subst; reflexivity.
  - injection H as ->; apply String.eqb_refl.
  - apply Nat.eqb_eq in H; subst; reflexivity.
  - injection H as ->; apply Nat.eqb_refl.
  - apply Nat.eqb_eq in H; subst; reflexivity.
  - injection H as ->; apply Nat.eqb_refl.
Qed.

(** C3. An array pattern that is not a Matcher matches a value exactly
    when the value is an array of the same length and each sub-pattern
    matches the element at its index; so the empty array pattern matches
    the arrays of length zero and nothing else. *)
Theorem array_pattern_matches m items rest v :
  truthy_property m = false ->
  (succeeds (VArr m items rest) v <->
   exists m' elems rest',
     v = VArr m' elems rest' /\
     List.length elems = List.length items /\
     Forall2 succeeds items elems)
  /\ (succeeds (VArr m [] rest) v <-> exists m' rest', v = VArr m' [] rest').
Proof.
  intros Hm.
  assert (Hgen : forall items0,
    succeeds (VArr m items0 rest) v <->
    exists m' elems rest',
      v = VArr m' elems rest' /\
      List.length elems = List.length items0 /\
      Forall2 succeeds items0 elems).
  { intros items0. unfold succeeds at 1. rewrite (matchPattern_array m items0 rest v Hm).
    destruct (isObject v) eqn:Hv; simpl negb; cbv iota.
    - destruct (isObject_shape v Hv) as [(m' & el & r' & ->) | (m' & o & r' & ->)].
      + simpl Array_isArray; simpl negb; cbv iota. simpl length_of.
        destruct (Nat.eqb (List.length items0) (List.length el)) eqn:Hl.
        * apply Nat.eqb_eq in Hl. rewrite everyi_succeeds. split.
          -- intros H. exists m', el, r'. split; [reflexivity|]. split; [auto|].
             apply Forall2_nth_error; [auto|]. intros j x Hj.
             generalize (H j x Hj). cbn [js_get_index get_index Nat.add].
             rewrite bind_ret_l. exact (fun h => h).
          -- intros (m2 & el2 & r2 & E & Hlen & HF). injection E as <- <- <-.
             intros j x Hj. cbn [js_get_index get_index Nat.add].
             rewrite bind_ret_l.
             apply (proj1 (Forall2_nth_error succeeds items0 el Hlen) HF); exact Hj.
        * split; [discriminate|].
          intros (m2 & el2 & r2 & E & Hlen & _). injection E as <- <- <-.
          apply Nat.eqb_neq in Hl. congruence.
      + simpl. split; [discriminate|]. intros (m2 & el2 & r2 & E & _); discriminate.
    - split; [discriminate|]. intros (m2 & el2 & r2 & -> & _). discriminate. }
  split; [apply Hgen|].
  rewrite Hgen. split.
  - intros (m' & el & r' & -> & Hlen & _). destruct el; [|discriminate].
    exists m', r'; reflexivity.
  - intros (m' & r' & ->). exists m', [], r'. repeat split; constructor.
Qed.

(** C4. A pattern that is not composite is a literal: it matches exactly
    the value that is the same value, with no call into host code.  The
    pattern [NaN] matches the value [NaN]; the pattern [0] does not match
    the value [-0], nor the pattern [-0] the value [0]. *)
Theorem literal_pattern_same_value p v :
  isObject p = false ->
  matchPattern p v = ret (Object_is v p)
  /\ (succeeds p v <-> v = p)
  /\ succeeds (VNum NaN) (VNum NaN)
  /\ ~ succeeds (VNum (Zero false)) (VNum (Zero true))
  /\ ~ succeeds (VNum (Zero true)) (VNum (Zero false)).
Proof.
  intros Hp. split; [apply matchPattern_literal; exact Hp|]. split; [|split; [|split]].
  - unfold succeeds. rewrite (matchPattern_literal p v Hp). simpl.
    rewrite <- (Object_is_eq v p Hp). split; [intros H; injection H; auto | intros ->; reflexivity].
  - reflexivity.
  - discriminate.
  - discriminate.
Qed.

Lemma isObject_spec p :
  isObject p = match p with
               | VArr _ _ _ | VObj _ _ _ => true
               | _ => false
               end.
Proof.
  destruct p; unfold isObject; cbn -[ToBoolean]; rewrite ?andb_false_r; reflexivity.
Qed.

Lemma own_property m own rest k :
  In k (Object_keys (VObj m own rest)) ->
  exists w, get_property (VObj m own rest) k = w /\ In (k, w) own.
Proof.
  intros Hk. apply In_keys in Hk. destruct (lookup_In own k Hk) as [w [Hw Hin]].
  exists w. simpl. rewrite Hw. split; [reflexivity | exact Hin].
Qed.

Lemma record_key_test sub v k b :
  isObject v = true -> isOptionalPattern sub = ret b ->
  (present <- js_in k v ;;
   ok <- (if present then ret true else isOptionalPattern sub) ;;
   if ok then field <- js_get v k ;; matchPattern sub field else ret false)
  = if has_property v k || b then matchPattern sub (get_property v k)
    else ret false.
Proof.
  intros Hv Hb. rewrite (js_in_composite k v Hv), bind_ret_l.
  destruct (has_property v k); cbn [orb]; cbv iota.
  - rewrite bind_ret_l, (js_get_composite v k Hv), bind_ret_l; reflexivity.
  - rewrite Hb, bind_ret_l. destruct b; [|reflexivity].
    rewrite (js_get_composite v k Hv), bind_ret_l; reflexivity.
Qed.

Lemma every_returns A (f : A -> M bool) (l : list A) :
  (forall x, In x l -> exists b, f x = ret b) -> exists b, every f l = ret b.
Proof.
  induction l as [| x l IH]; intros H; simpl; [eexists; reflexivity|].
  destruct (H x (or_introl eq_refl)) as [b ->]. rewrite bind_ret_l.
  destruct b; [|eexists; reflexivity].
  apply IH; intros y Hy; apply H; right; exact Hy.
Qed.

Lemma everyi_returns A (f : A -> nat -> M bool) (l : list A) (i : nat) :
  (forall x j, In x l -> exists b, f x j = ret b) -> exists b, everyi f l i = ret b.
Proof.
  revert i; induction l as [| x l IH]; intros i H; simpl; [eexists; reflexivity|].
  destruct (H x i (or_introl eq_refl)) as [b ->]. rewrite bind_ret_l.
  destruct b; [|eexists; reflexivity].
  apply IH; intros y j Hy; apply H; right; exact Hy.
Qed.

Lemma matcher_free_array m items rest :
  matcher_free (VArr m items rest) = true ->
  truthy_property m = false /\ Forall (fun x => matcher_free x = true) items.
Proof.
  simpl. unfold isMatcher; simpl. intros H; apply andb_true_iff in H as [H1 H2].
  split; [apply negb_true_iff; exact H1 | apply Forall_forall, forallb_forall; exact H2].
Qed.

Lemma matcher_free_record m own rest :
  matcher_free (VObj m own rest) = true ->
  truthy_property m = false /\ Forall (fun kv => matcher_free (snd kv) = true) own.
Proof.
  simpl. unfold isMatcher; simpl. intros H; apply andb_true_iff in H as [H1 H2].
  split; [apply negb_true_iff; exact H1 |].
  apply Forall_forall. apply (proj1 (forallb_forall _ own) H2).
Qed.

Lemma everyi_all_true A (f : A -> nat -> M bool) (l : list A) (i : nat) :
  (forall j x, nth_error l j = Some x -> f x (i + j) = ret true) ->
  everyi f l i = ret true.
Proof.
  revert i; induction l as [| x l IH]; intros i H; simpl; [reflexivity|].
  generalize (H 0 x eq_refl); rewrite Nat.add_0_r; intros ->.
  rewrite bind_ret_l. apply IH. intros j y Hj.
  rewrite Nat.add_succ_comm. apply H; exact Hj.
Qed.

Lemma literal_matches_itself p :
  isObject p = false -> matchPattern p p = ret true.
Proof.
  intros Hp. rewrite (matchPattern_literal p p Hp).
  rewrite (proj2 (Object_is_eq p p Hp) eq_refl). reflexivity.
Qed.

(** C9. A function given as a pattern is a literal: [isObject] rejects
    it, [matchPattern] calls nothing, whatever the function carries under
    [symbols.matcher], and it matches exactly the value that is this same
    function. *)
Theorem function_pattern_is_literal f v :
  isObject (VFun f) = false
  /\ matchPattern (VFun f) v = ([], Normal (Object_is v (VFun f)))
  /\ trace (matchPattern (VFun f) v) = []
  /\ (succeeds (VFun f) v <-> v = VFun f).
Proof.
  split; [reflexivity|]. split; [reflexivity|]. split; [reflexivity|].
  unfold succeeds; simpl.
  rewrite <- (Object_is_eq v (VFun f) eq_refl).
  split; [intros H; injection H; auto | intros ->; reflexivity].
Qed.

(** C10. A pattern without Matcher objects matches itself, and no call is
    made, to [select] or to anything else. *)
Theorem matching_is_reflexive p :
  matcher_free p = true -> matchPattern p p = ([], Normal true).
Proof.
  induction p as [| | b | n | z | s | id | id | m items rest IH | m own rest IH]
    using value_ind; intros Hmf;
    try (apply literal_matches_itself; rewrite isObject_spec; reflexivity).
  - destruct (matcher_free_array m items rest Hmf) as [Hm Hitems].
    rewrite (matchPattern_array m items rest _ Hm).
    cbn [isObject ToBoolean typeof Array_isArray length_of negb andb].
    rewrite String.eqb_refl, Nat.eqb_refl. cbn [negb].
    apply everyi_all_true. intros j x Hj.
    cbn [js_get_index get_index Nat.add]. rewrite bind_ret_l.
    rewrite (nth_error_nth items j VUndefined Hj).
    rewrite Forall_forall in IH, Hitems.
    apply nth_error_In in Hj. apply IH; auto.
  - destruct (matcher_free_record m own rest Hmf) as [Hm Hown].
    rewrite (matchPattern_record m own rest _ Hm).
    assert (Hv : isObject (VObj m own rest) = true) by (rewrite isObject_spec; reflexivity).
    rewrite Hv; cbn [negb].
    apply every_all_true. intros k Hk. cbv zeta.
    destruct (isOptionalPattern_returns (get_property (VObj m own rest) k)) as [b Hb].
    rewrite (record_key_test _ _ k b Hv Hb).
    assert (Hhas : has_property (VObj m own rest) k = true).
    { simpl. apply orb_true_iff; left. apply mem_In, In_keys; exact Hk. }
    rewrite Hhas; cbn [orb].
    destruct (own_property m own rest k Hk) as [w [-> Hin]].
    rewrite Forall_forall in IH, Hown.
    apply (IH (k, w) Hin). apply (Hown (k, w) Hin).
Qed.

Lemma reduce_concat A B (f : A -> M (list B)) (tr : A -> list event)
      (g : A -> list B) (l : list A) (acc : list B) :
  (forall x, In x l -> f x = (tr x, Normal (g x))) ->
  reduce (fun acc p => r <- f p ;; ret (acc ++ r)) l acc =
  (List.concat (map tr l), Normal (acc ++ List.concat (map g l))).
Proof.
  revert acc; induction l as [| x l IH]; intros acc H; simpl.
  - rewrite app_nil_r; reflexivity.
  - rewrite (H x (or_introl eq_refl)). cbn [bind ret].
    rewrite (IH (acc ++ g x)) by (intros y Hy; apply H; right; exact Hy).
    cbn [List.concat map]. rewrite app_nil_r, app_assoc; reflexivity.
Qed.

Lemma flatMap_concat A B (f : A -> M (list B)) (tr : A -> list event)
      (g : A -> list B) (l : list A) :
  (forall x, In x l -> f x = (tr x, Normal (g x))) ->
  flatMap l f = (List.concat (map tr l), Normal (List.concat (map g l))).
Proof.
  intros H. unfold flatMap. rewrite (reduce_concat A B f tr g l [] H); reflexivity.
Qed.

Lemma reduce_map A A' B (h : A' -> A) (F : B -> A -> M B) (l : list A') (acc : B) :
  reduce F (map h l) acc = reduce (fun a x => F a (h x)) l acc.
Proof.
  revert acc; induction l as [| x l IH]; intros acc; simpl; [reflexivity|].
  destruct (F acc (h x)) as [t [b | e]]; simpl; [rewrite IH|]; reflexivity.
Qed.

Lemma reduce_ext_in A B (F G : B -> A -> M B) (l : list A) (acc : B) :
  (forall a x, In x l -> F a x = G a x) -> reduce F l acc = reduce G l acc.
Proof.
  revert acc; induction l as [| x l IH]; intros acc H; simpl; [reflexivity|].
  rewrite (H acc x (or_introl eq_refl)).
  destruct (G acc x) as [t [b | e]]; simpl; [|reflexivity].
  rewrite IH; [reflexivity|]. intros a y Hy; apply H; right; exact Hy.
Qed.

Lemma getSelectionKeys_matcher p f :
  isObject p = true -> symbols_matcher p = Accessor f ->
  getSelectionKeys p =
  match getSelectionKeys_ (call f) with
  | Some ks => ([CallGetSelectionKeys f], Normal ks)
  | None => ret []
  end.
Proof.
  intros Ho Hm.
  destruct (isObject_shape p Ho) as [(m & i & r & ->) | (m & o & r & ->)];
    simpl in Hm; subst m; simpl; destruct (getSelectionKeys_ (call f)); reflexivity.
Qed.

Lemma getSelectionKeys_literal p : isObject p = false -> getSelectionKeys p = ret [].
Proof.
  rewrite isObject_spec. destruct p; intros H; try discriminate H;
    cbn -[ToBoolean]; unfold isObject; cbn -[ToBoolean];
    rewrite ?andb_false_r; reflexivity.
Qed.

Lemma getSelectionKeys_array m items rest :
  truthy_property m = false ->
  getSelectionKeys (VArr m items rest) = flatMap items getSelectionKeys.
Proof. intros Hm. simpl. unfold isMatcher; simpl. rewrite Hm. reflexivity. Qed.

Lemma getSelectionKeys_record m own rest :
  truthy_property m = false ->
  getSelectionKeys (VObj m own rest) =
  flatMap (Object_values (VObj m own rest)) getSelectionKeys.
Proof.
  intros Hm. simpl getSelectionKeys. unfold isMatcher; simpl ToBoolean.
  cbn [symbols_matcher andb]. rewrite Hm. cbn [isObject ToBoolean typeof andb].
  unfold flatMap, Object_values. rewrite reduce_map.
  apply reduce_ext_in. intros a k Hk.
  destruct (own_property m own rest k Hk) as [w [Hw Hin]].
  rewrite lookup_with_lookup. rewrite Hw.
  simpl in Hw. destruct (lookup own k) as [w'|] eqn:E.
  - subst w'; reflexivity.
  - apply In_keys in Hk. destruct (lookup_In own k Hk) as [w' [Hw' _]]. congruence.
Qed.

Lemma getSelectionKeys_returns p :
  getSelectionKeys p = (trace (getSelectionKeys p), Normal (selection_keys_of p))
  /\ (forall ev, In ev (trace (getSelectionKeys p)) ->
        exists f, ev = CallGetSelectionKeys f).
Proof.
  assert (Hmatcher : forall q f, isObject q = true -> symbols_matcher q = Accessor f ->
    getSelectionKeys q = (trace (getSelectionKeys q), Normal (selection_keys_of q))
    /\ (forall ev, In ev (trace (getSelectionKeys q)) ->
          exists f, ev = CallGetSelectionKeys f)).
  { intros q f Hq Hf. unfold selection_keys_of.
    rewrite (getSelectionKeys_matcher q f Hq Hf).
    destruct (getSelectionKeys_ (call f)) as [ks|]; simpl.
    - split; [reflexivity|]. intros ev [<- | []]. exists f; reflexivity.
    - split; [reflexivity|]. intros ev []. }
  assert (Hflat : forall (l : list value),
    Forall (fun q =>
      getSelectionKeys q = (trace (getSelectionKeys q), Normal (selection_keys_of q))
      /\ (forall ev, In ev (trace (getSelectionKeys q)) ->
            exists f, ev = CallGetSelectionKeys f)) l ->
    flatMap l getSelectionKeys =
      (List.concat (map (fun q => trace (getSelectionKeys q)) l),
       Normal (List.concat (map selection_keys_of l)))
    /\ (forall ev, In ev (List.concat (map (fun q => trace (getSelectionKeys q)) l)) ->
          exists f, ev = CallGetSelectionKeys f)).
  { intros l Hl. rewrite Forall_forall in Hl. split.
    - apply flatMap_concat. intros x Hx. apply (proj1 (Hl x Hx)).
    - intros ev Hev. apply in_concat in Hev as [t [Ht Hev]].
      apply in_map_iff in Ht as [q [<- Hq]]. apply (proj2 (Hl q Hq)); exact Hev. }
  induction p as [| | b | n | z | s | id | id | m items rest IH | m own rest IH]
    using value_ind;
    try (unfold selection_keys_of;
         rewrite getSelectionKeys_literal by (rewrite isObject_spec; reflexivity);
         split; [reflexivity | intros ev []]).
  - destruct (truthy_property m) eqn:Hm.
    + destruct m as [| | f]; try discriminate Hm. apply (Hmatcher _ f); reflexivity.
    + destruct (Hflat items IH) as [E Hev].
      unfold selection_keys_of. rewrite (getSelectionKeys_array m items rest Hm), E.
      split; [reflexivity | exact Hev].
  - destruct (truthy_property m) eqn:Hm.
    + destruct m as [| | f]; try discriminate Hm. apply (Hmatcher _ f); reflexivity.
    + assert (Hvals : Forall (fun q =>
        getSelectionKeys q = (trace (getSelectionKeys q), Normal (selection_keys_of q))
        /\ (forall ev, In ev (trace (getSelectionKeys q)) ->
              exists f, ev = CallGetSelectionKeys f)) (Object_values (VObj m own rest))).
      { apply Forall_forall. intros q Hq. unfold Object_values in Hq.
        apply in_map_iff in Hq as [k [<- Hk]].
        destruct (own_property m own rest k Hk) as [w [-> Hin]].
        rewrite Forall_forall in IH. apply (IH (k, w) Hin). }
      destruct (Hflat _ Hvals) as [E Hev].
      unfold selection_keys_of. rewrite (getSelectionKeys_record m own rest Hm), E.
      split; [reflexivity | exact Hev].
Qed.

(** C8. [getSelectionKeys] of a Matcher is what the matcher's own
    [getSelectionKeys()] returns, and is empty when the matcher has none;
    of an array or a record that is not a Matcher it is the concatenation,
    from left to right, of [getSelectionKeys] of the elements or of the
    property values; of a pattern that is not composite it is empty.  It
    always returns, and the only host calls it makes are calls of
    [getSelectionKeys()]: no [match] and no [select]. *)
Theorem selection_keys_enumeration p :
  (forall f, isObject p = true -> symbols_matcher p = Accessor f ->
     getSelectionKeys p =
     match getSelectionKeys_ (call f) with
     | Some ks => ([CallGetSelectionKeys f], Normal ks)
     | None => ([], Normal [])
     end)
  /\ (forall m items rest, p = VArr m items rest -> isMatcher p = false ->
        getSelectionKeys p = flatMap items getSelectionKeys
        /\ selection_keys_of p = List.concat (map selection_keys_of items))
  /\ (forall m own rest, p = VObj m own rest -> isMatcher p = false ->
        getSelectionKeys p = flatMap (Object_values p) getSelectionKeys
        /\ selection_keys_of p =
           List.concat (map selection_keys_of (Object_values p)))
  /\ (isObject p = false -> getSelectionKeys p = ([], Normal []))
  /\ outcome (getSelectionKeys p) = Normal (selection_keys_of p)
  /\ (forall ev, In ev (trace (getSelectionKeys p)) ->
        exists f, ev = CallGetSelectionKeys f).
Proof.
  assert (Hflat : forall l,
    flatMap l getSelectionKeys =
    (List.concat (map (fun q => trace (getSelectionKeys q)) l),
     Normal (List.concat (map selection_keys_of l)))).
  { intros l. apply flatMap_concat. intros x _. apply getSelectionKeys_returns. }
  split; [|split; [|split; [|split; [|split]]]].
  - intros f Hp Hf. apply getSelectionKeys_matcher; assumption.
  - intros m items rest -> Hm. split; [apply getSelectionKeys_array; exact Hm|].
    unfold selection_keys_of at 1.
    rewrite (getSelectionKeys_array m items rest Hm), Hflat; reflexivity.
  - intros m own rest -> Hm. split; [apply getSelectionKeys_record; exact Hm|].
    unfold selection_keys_of at 1.
    rewrite (getSelectionKeys_record m own rest Hm), Hflat; reflexivity.
  - apply getSelectionKeys_literal.
  - rewrite (proj1 (getSelectionKeys_returns p)) at 1. reflexivity.
  - apply getSelectionKeys_returns.
Qed.

(** ** Further properties of the helpers *)

Lemma bind_ext A B (m : M A) (k k' : A -> M B) :
  (forall a, k a = k' a) -> bind m k = bind m k'.
Proof.
  intros H. destruct m as [t [a | e]]; unfold bind; [rewrite H|]; reflexivity.
Qed.

Lemma bind_normal A B (t : list event) (a : A) (k : A -> M B) :
  bind (t, Normal a) k = (t ++ trace (k a), outcome (k a)).
Proof. unfold bind. destruct (k a); reflexivity. Qed.

Lemma filter_all A (P : A -> bool) (l : list A) :
  (forall x, In x l -> P x = true) -> filter P l = l.
Proof.
  induction l as [| x l IH]; intros H; simpl; [reflexivity|].
  rewrite (H x (or_introl eq_refl)), IH; [reflexivity|].
  intros y Hy; apply H; right; exact Hy.
Qed.

Lemma everyi_shift A (f g : A -> nat -> M bool) (l : list A) (i : nat) :
  (forall x j, f x (S j) = g x j) -> everyi f l (S i) = everyi g l i.
Proof.
  intros H. revert i; induction l as [| x l IH]; intros i; simpl; [reflexivity|].
  rewrite H. apply bind_ext. intros [|]; [apply IH | reflexivity].
Qed.

(** X1. [isObject] holds of the values whose [typeof] is ['object'], [null]
    excepted: of arrays and records, and of nothing else. *)
Theorem isObject_is_typeof_object_but_null v :
  (isObject v = true <-> typeof v = "object" /\ v <> VNull)
  /\ (isObject v = true <->
      (exists m items rest, v = VArr m items rest) \/
      (exists m own rest, v = VObj m own rest)).
Proof.
  split.
  - rewrite isObject_spec.
    destruct v; simpl;
      try (split; [discriminate | intros [H _]; discriminate H]);
      try (split; [intros _; split; [reflexivity | discriminate] | reflexivity]).
    split; [discriminate | intros [_ H]; exfalso; apply H; reflexivity].
  - split; [apply isObject_shape|].
    intros [(m & i & r & ->) | (m & o & r & ->)]; reflexivity.
Qed.

Lemma reduce_app A B (F : B -> A -> M B) (xs ys : list A) (acc : B) :
  reduce F (xs ++ ys) acc = acc' <- reduce F xs acc ;; reduce F ys acc'.
Proof.
  revert acc; induction xs as [| x xs IH]; intros acc; cbn [reduce app].
  - rewrite bind_ret_l; reflexivity.
  - rewrite bind_assoc. apply bind_ext. intros a; apply IH.
Qed.

Lemma reduce_accumulator A B (f : A -> M (list B)) (l : list A) (acc : list B) :
  reduce (fun acc p => r <- f p ;; ret (acc ++ r)) l acc =
  r <- reduce (fun acc p => r <- f p ;; ret (acc ++ r)) l [] ;; ret (acc ++ r).
Proof.
  revert acc; induction l as [| x l IH]; intros acc; cbn [reduce].
  - rewrite bind_ret_l, app_nil_r; reflexivity.
  - rewrite !bind_assoc. apply bind_ext. intros r. cbv beta.
    rewrite !bind_ret_l. simpl app.
    rewrite (IH (acc ++ r)), (IH r). rewrite bind_assoc.
    apply bind_ext. intros r'. cbv beta. rewrite bind_ret_l, app_assoc; reflexivity.
Qed.

(** X4. [flatMap] of the empty array is empty, [flatMap] of a one-element
    array is [f] of the element, and [flatMap] of a concatenation is the
    [flatMap] of the first part, then of the second, results appended. *)
Theorem flatMap_append A B (f : A -> M (list B)) (xs ys : list A) :
  flatMap [] f = ([], Normal [])
  /\ (forall x, flatMap [x] f = f x)
  /\ flatMap (xs ++ ys) f =
     (a <- flatMap xs f ;; b <- flatMap ys f ;; ret (a ++ b)).
Proof.
  split; [reflexivity|]. split.
  - intros x. unfold flatMap; simpl.
    destruct (f x) as [t [r | e]]; unfold bind, ret; simpl;
      rewrite ?app_nil_r; reflexivity.
  - unfold flatMap. rewrite reduce_app. apply bind_ext.
    intros a. apply reduce_accumulator.
Qed.

(** X5. When [f] throws on an element, [flatMap] throws the same value and
    [f] is not applied to the elements that follow. *)
Theorem flatMap_stops_at_throw A B (f : A -> M (list B)) (xs ys : list A)
        (x : A) (t1 t2 : list event) (ks : list B) (e : value) :
  flatMap xs f = (t1, Normal ks) -> f x = (t2, Throw e) ->
  flatMap (xs ++ x :: ys) f = (t1 ++ t2, Throw e).
Proof.
  intros Hxs Hx. unfold flatMap in *. rewrite reduce_app, Hxs.
  rewrite bind_normal. simpl reduce. rewrite Hx. reflexivity.
Qed.

Lemma matchPattern_tuple_nil m rest m' rest' :
  truthy_property m = false ->
  matchPattern (VArr m [] rest) (VArr m' [] rest') = ret true.
Proof. intros Hm. rewrite (matchPattern_array m [] rest _ Hm). reflexivity. Qed.

Lemma matchPattern_tuple_cons m p ps rest m' v vs rest' :
  truthy_property m = false -> List.length ps = List.length vs ->
  matchPattern (VArr m (p :: ps) rest) (VArr m' (v :: vs) rest') =
  (b <- matchPattern p v ;;
   if b then matchPattern (VArr m ps rest) (VArr m' vs rest') else ret false).
Proof.
  intros Hm Hlen.
  rewrite (matchPattern_array m (p :: ps) rest _ Hm),
          (matchPattern_array m ps rest _ Hm).
  cbn [isObject ToBoolean typeof Array_isArray length_of negb andb List.length].
  rewrite String.eqb_refl. cbn [negb Nat.eqb]. rewrite Hlen, Nat.eqb_refl.
  cbn [everyi js_get_index get_index nth]. rewrite bind_ret_l.
  apply bind_ext. intros [|]; [|reflexivity].
  apply everyi_shift. intros x j. reflexivity.
Qed.

(** X6. The head of a tuple pattern is matched first, against the head of the
    value; the rest is matched only if the head matched. *)
Theorem tuple_pattern_head_then_tail m p ps rest m' v vs rest' :
  truthy_property m = false -> List.length ps = List.length vs ->
  matchPattern (VArr m (p :: ps) rest) (VArr m' (v :: vs) rest') =
  (b <- matchPattern p v ;;
   if b then matchPattern (VArr m ps rest) (VArr m' vs rest') else ret false)
  /\ (outcome (matchPattern p v) <> Normal true ->
      matchPattern (VArr m (p :: ps) rest) (VArr m' (v :: vs) rest') =
      matchPattern p v).
Proof.
  intros Hm Hlen. rewrite (matchPattern_tuple_cons m p ps rest m' v vs rest' Hm Hlen).
  split; [reflexivity|]. intros Hne.
  destruct (matchPattern p v) as [t [[|] | e]]; simpl in Hne.
  - exfalso; apply Hne; reflexivity.
  - unfold bind, ret. rewrite app_nil_r; reflexivity.
  - reflexivity.
Qed.

(** X7. When every sub-pattern of a tuple pattern matches its element, the
    calls into host code are those of the sub-patterns, in the order of
    the positions. *)
Theorem tuple_success_reports_in_index_order m rest m' rest' items elems :
  truthy_property m = false -> Forall2 succeeds items elems ->
  matchPattern (VArr m items rest) (VArr m' elems rest') =
  (pairwise_trace items elems, Normal true)
  /\ (forall p v, pairwise_trace (p :: items) (v :: elems) =
                  trace (matchPattern p v) ++ pairwise_trace items elems)
  /\ pairwise_trace [] [] = [].
Proof.
  intros Hm HF. split; [|split; [intros p v; reflexivity | reflexivity]].
  induction HF as [| p v ps vs Hpv HF IH].
  - apply matchPattern_tuple_nil; exact Hm.
  - rewrite (matchPattern_tuple_cons m p ps rest m' v vs rest' Hm (Forall2_length HF)).
    unfold succeeds, outcome in Hpv.
    destruct (matchPattern p v) as [t c] eqn:Epv. cbn [snd] in Hpv. subst c.
    rewrite bind_normal, IH. unfold pairwise_trace.
    cbn [combine map List.concat fst snd]. rewrite Epv. reflexivity.
Qed.

(** X8. A tuple pattern stops at the first sub-pattern that does not match:
    the result is what that sub-pattern gives, [false] or the value it
    throws, and the sub-patterns after it are not evaluated. *)
Theorem tuple_pattern_stops_at_first_failure
        m rest m' rest' pre vpre p v post vpost :
  truthy_property m = false ->
  Forall2 succeeds pre vpre ->
  outcome (matchPattern p v) <> Normal true ->
  List.length post = List.length vpost ->
  matchPattern (VArr m (pre ++ p :: post) rest) (VArr m' (vpre ++ v :: vpost) rest') =
  (pairwise_trace pre vpre ++ trace (matchPattern p v), outcome (matchPattern p v)).
Proof.
  intros Hm HF Hne Hlen. induction HF as [| q w qs ws Hqw HF IH].
  - simpl app.
    rewrite (matchPattern_tuple_cons m p post rest m' v vpost rest' Hm Hlen).
    destruct (matchPattern p v) as [t [[|] | e]]; simpl in Hne |- *.
    + exfalso; apply Hne; reflexivity.
    + unfold bind, ret. rewrite app_nil_r; reflexivity.
    + reflexivity.
  - simpl app.
    assert (Hl : List.length (qs ++ p :: post) = List.length (ws ++ v :: vpost)).
    { rewrite !length_app. simpl. rewrite (Forall2_length HF), Hlen. reflexivity. }
    rewrite (matchPattern_tuple_cons m q _ rest m' w _ rest' Hm Hl).
    unfold succeeds, outcome in Hqw.
    destruct (matchPattern q w) as [t c] eqn:Eqw. cbn [snd] in Hqw. subst c.
    rewrite bind_normal, IH. unfold pairwise_trace.
    cbn [combine map List.concat fst snd trace outcome]. rewrite Eqw.
    cbn [fst]. rewrite app_assoc. reflexivity.
Qed.

(** X9. A tuple pattern makes no call into host code when the value has
    another shape: an array of another length, or a record. *)
Theorem tuple_shape_mismatch_calls_nothing m items rest :
  truthy_property m = false ->
  (forall m' elems rest', List.length elems <> List.length items ->
     matchPattern (VArr m items rest) (VArr m' elems rest') = ([], Normal false))
  /\ (forall m' own rest',
        matchPattern (VArr m items rest) (VObj m' own rest') = ([], Normal false)).
Proof.
  intros Hm. split.
  - intros m' elems rest' Hlen. rewrite (matchPattern_array m items rest _ Hm).
    cbn [isObject ToBoolean typeof Array_isArray length_of negb andb].
    rewrite String.eqb_refl. cbn [negb].
    destruct (Nat.eqb (List.length items) (List.length elems)) eqn:E; [|reflexivity].
    apply Nat.eqb_eq in E. exfalso; apply Hlen; symmetry; exact E.
  - intros m' own rest'. rewrite (matchPattern_array m items rest _ Hm). reflexivity.
Qed.

Lemma Object_keys_cons m k sub own rest :
  ~ In k (map fst own) ->
  Object_keys (VObj m ((k, sub) :: own) rest) = k :: Object_keys (VObj m own rest).
Proof.
  intros Hk. cbn [Object_keys keys map fst uniq]. f_equal.
  apply filter_all. intros x Hx. apply (proj1 (In_uniq x (map fst own))) in Hx.
  destruct (String.eqb x k) eqn:E; [|reflexivity].
  apply String.eqb_eq in E; subst x. exfalso; exact (Hk Hx).
Qed.

Lemma every_cons A (f : A -> M bool) (x : A) (l : list A) :
  every f (x :: l) = (b <- f x ;; if b then every f l else ret false).
Proof. reflexivity. Qed.

Lemma matchPattern_record_cons m k sub own rest v :
  truthy_property m = false -> isObject v = true -> ~ In k (map fst own) ->
  matchPattern (VObj m ((k, sub) :: own) rest) v =
  (b <- key_test sub v k ;;
   if b then matchPattern (VObj m own rest) v else ret false).
Proof.
  intros Hm Hv Hk.
  rewrite (matchPattern_record m ((k, sub) :: own) rest v Hm),
          (matchPattern_record m own rest v Hm).
  rewrite Hv; cbn [negb]. rewrite (Object_keys_cons m k sub own rest Hk), every_cons.
  cbv zeta. cbn [get_property lookup]. rewrite String.eqb_refl.
  apply bind_ext. intros [|]; [|reflexivity].
  apply every_ext_in. intros k' Hk'. apply (proj1 (In_keys k' own)) in Hk'.
  cbv zeta. cbn [get_property lookup].
  destruct (String.eqb k' k) eqn:E; [|reflexivity].
  apply String.eqb_eq in E; subst k'. exfalso; exact (Hk Hk').
Qed.

(** X10. A record pattern tests its first key first, and the other keys only
    if that test passed: the key must be in the value or the sub-pattern
    be optional, and the sub-pattern must match the value's field. *)
Theorem record_pattern_head_then_tail m k sub own rest v :
  truthy_property m = false -> isObject v = true -> ~ In k (map fst own) ->
  matchPattern (VObj m ((k, sub) :: own) rest) v =
  (b <- key_test sub v k ;;
   if b then matchPattern (VObj m own rest) v else ret false)
  /\ (forall opt, isOptionalPattern sub = ret opt ->
        key_test sub v k =
        if has_property v k || opt then matchPattern sub (get_property v k)
        else ret false)
  /\ (has_property v k = true ->
        key_test sub v k = matchPattern sub (get_property v k)).
Proof.
  intros Hm Hv Hk. split; [apply matchPattern_record_cons; assumption|]. split.
  - intros opt Hopt. apply record_key_test; assumption.
  - intros Hhas. destruct (isOptionalPattern_returns sub) as [opt Hopt].
    unfold key_test. rewrite (record_key_test sub v k opt Hv Hopt), Hhas. reflexivity.
Qed.

(** X12. When a key of a record pattern is not in the value and its
    sub-pattern is an optional Matcher, that matcher's [match] is called
    with [undefined], and the other keys are tested if it matched. *)
Theorem absent_optional_key_matches_undefined m k sub f own rest v :
  truthy_property m = false -> isObject v = true -> ~ In k (map fst own) ->
  has_property v k = false ->
  isObject sub = true -> symbols_matcher sub = Accessor f ->
  matcherType (call f) = Some optional ->
  matchPattern (VObj m ((k, sub) :: own) rest) v =
  (b <- delegate f VUndefined ;;
   if b then matchPattern (VObj m own rest) v else ret false).
Proof.
  intros Hm Hv Hk Hhas Hsub Hf Ht.
  rewrite (matchPattern_record_cons m k sub own rest v Hm Hv Hk).
  assert (Hopt : isOptionalPattern sub = ret true).
  { rewrite (isOptionalPattern_accessor sub f Hf), Ht. reflexivity. }
  unfold key_test. rewrite (record_key_test sub v k true Hv Hopt), Hhas.
  cbn [orb]. rewrite (absent_property_undefined v k Hhas).
  rewrite (matchPattern_matcher sub VUndefined f Hsub Hf). reflexivity.
Qed.

(** X14. The string-keyed properties of a record pattern that
    [Object.keys] does not list (inherited or non-enumerable ones) are
    never read, by [matchPattern] or by [getSelectionKeys]. *)
Theorem hidden_pattern_properties_are_ignored m own rest rest' v :
  matchPattern (VObj m own rest) v = matchPattern (VObj m own rest') v
  /\ getSelectionKeys (VObj m own rest) = getSelectionKeys (VObj m own rest').
Proof.
  assert (Hget : forall k, In k (keys own) ->
            get_property (VObj m own rest) k = get_property (VObj m own rest') k).
  { intros k Hk. apply (proj1 (In_keys k own)) in Hk.
    destruct (lookup_In own k Hk) as [u [Hu _]].
    cbn [get_property]. rewrite Hu. reflexivity. }
  destruct (truthy_property m) eqn:Hm.
  - destruct m as [| | f]; try discriminate Hm.
    rewrite (matchPattern_matcher (VObj (Accessor f) own rest) v f eq_refl eq_refl),
            (matchPattern_matcher (VObj (Accessor f) own rest') v f eq_refl eq_refl).
    rewrite (getSelectionKeys_matcher (VObj (Accessor f) own rest) f eq_refl eq_refl),
            (getSelectionKeys_matcher (VObj (Accessor f) own rest') f eq_refl eq_refl).
    split; reflexivity.
  - split.
    + rewrite (matchPattern_record m own rest v Hm),
              (matchPattern_record m own rest' v Hm).
      destruct (negb (isObject v)); [reflexivity|].
      apply every_ext_in. intros k Hk. cbv zeta. rewrite (Hget k Hk). reflexivity.
    + rewrite (getSelectionKeys_record m own rest Hm),
              (getSelectionKeys_record m own rest' Hm).
      unfold Object_values. cbn [Object_keys].
      rewrite (map_ext_in _ _ _ Hget). reflexivity.
Qed.

Lemma concat_map_nil A B (l : list A) :
  List.concat (map (fun _ : A => @nil B) l) = [].
Proof. induction l as [| x l IH]; simpl; [reflexivity | exact IH]. Qed.

(** X15. A pattern without Matcher objects selects nothing: [getSelectionKeys]
    returns the empty array and calls nothing. *)
Theorem matcher_free_pattern_selects_nothing p :
  matcher_free p = true -> getSelectionKeys p = ([], Normal []).
Proof.
  induction p as [| | b | n | z | s | id | id | m items rest IH | m own rest IH]
    using value_ind; intros Hmf;
    try (apply getSelectionKeys_literal; rewrite isObject_spec; reflexivity).
  - destruct (matcher_free_array m items rest Hmf) as [Hm Hitems].
    rewrite (getSelectionKeys_array m items rest Hm).
    rewrite (flatMap_concat value string getSelectionKeys (fun _ => []) (fun _ => []) items).
    + rewrite !concat_map_nil. reflexivity.
    + intros x Hx. rewrite Forall_forall in IH, Hitems. apply IH; auto.
  - destruct (matcher_free_record m own rest Hmf) as [Hm Hown].
    rewrite (getSelectionKeys_record m own rest Hm).
    rewrite (flatMap_concat value string getSelectionKeys (fun _ => []) (fun _ => [])
               (Object_values (VObj m own rest))).
    + rewrite !concat_map_nil. reflexivity.
    + intros x Hx. unfold Object_values in Hx.
      apply in_map_iff in Hx as [k [<- Hk]].
      destruct (own_property m own rest k Hk) as [w [-> Hin]].
      rewrite Forall_forall in IH, Hown.
      apply (IH (k, w) Hin). apply (Hown (k, w) Hin).
Qed.

(** X13. When the test of every key of a record pattern passes, the calls into
    host code are those of the keys, in the order of the keys of the
    pattern. *)
Theorem record_success_reports_in_key_order m rest v own :
  truthy_property m = false -> isObject v = true -> NoDup (map fst own) ->
  (forall kv, In kv own -> outcome (key_test (snd kv) v (fst kv)) = Normal true) ->
  matchPattern (VObj m own rest) v = (keywise_trace own v, Normal true)
  /\ (forall k sub, keywise_trace ((k, sub) :: own) v =
                    trace (key_test sub v k) ++ keywise_trace own v).
Proof.
  intros Hm Hv Hnd Hall. split; [|intros k sub; reflexivity].
  revert Hnd Hall. induction own as [| [k sub] own IH]; intros Hnd Hall.
  - rewrite (matchPattern_record m [] rest v Hm), Hv. reflexivity.
  - cbn [map fst] in Hnd. inversion Hnd as [| k0 l0 Hk Hnd' ]; subst.
    rewrite (matchPattern_record_cons m k sub own rest v Hm Hv Hk).
    generalize (Hall (k, sub) (or_introl eq_refl)); cbn [fst snd]; intros Hks.
    unfold outcome in Hks.
    destruct (key_test sub v k) as [t c] eqn:Ek. cbn [snd] in Hks. subst c.
    rewrite bind_normal, IH; [|exact Hnd' | intros kv Hkv; apply Hall; right; exact Hkv].
    unfold keywise_trace. cbn [map List.concat fst snd trace outcome].
    rewrite Ek. reflexivity.
Qed.

Lemma count_app P (t1 t2 : list event) : count P (t1 ++ t2) = count P t1 + count P t2.
Proof. unfold count. rewrite filter_app, length_app. reflexivity. Qed.

Lemma count_bind_le A B P (m : M A) (k : A -> M B) (n1 n2 : nat) :
  count P (trace m) <= n1 ->
  (forall a, count P (trace (k a)) <= n2) ->
  count P (trace (bind m k)) <= n1 + n2.
Proof.
  intros H1 H2. rewrite trace_bind, count_app.
  apply Nat.add_le_mono; [exact H1|].
  destruct (outcome m) as [a | e]; [apply H2 | apply Nat.le_0_l].
Qed.

Lemma every_count_le A P (N : A -> nat) (f : A -> M bool) (l : list A) :
  (forall x, In x l -> count P (trace (f x)) <= N x) ->
  count P (trace (every f l)) <= list_sum (map N l).
Proof.
  induction l as [| x l IH]; intros H; [apply Nat.le_0_l|].
  cbn [every map list_sum]. apply count_bind_le.
  - apply H; left; reflexivity.
  - intros [|]; [|apply Nat.le_0_l].
    apply IH. intros y Hy; apply H; right; exact Hy.
Qed.

Lemma everyi_count_le A P (N : A -> nat) (f : A -> nat -> M bool) (l : list A) (i : nat) :
  (forall x j, In x l -> count P (trace (f x j)) <= N x) ->
  count P (trace (everyi f l i)) <= list_sum (map N l).
Proof.
  revert i; induction l as [| x l IH]; intros i H; [apply Nat.le_0_l|].
  cbn [everyi map list_sum]. apply count_bind_le.
  - apply H; left; reflexivity.
  - intros [|]; [|apply Nat.le_0_l].
    apply IH. intros y j Hy; apply H; right; exact Hy.
Qed.

Lemma list_sum_filter_le A (g : A -> nat) (P : A -> bool) (l : list A) :
  list_sum (map g (filter P l)) <= list_sum (map g l).
Proof.
  induction l as [| x l IH]; simpl; [apply Nat.le_refl|].
  destruct (P x); simpl.
  - apply Nat.add_le_mono_l; exact IH.
  - apply (Nat.le_trans _ _ _ IH). apply Nat.le_add_l.
Qed.

Lemma keys_sum_le (N : value -> nat) (own : props) :
  list_sum (map (fun k => N (or_undefined (lookup own k))) (keys own)) <=
  list_sum (map (fun kv => N (snd kv)) own).
Proof.
  induction own as [| [k0 w0] own IH]; [apply Nat.le_refl|].
  cbn [keys map fst snd uniq list_sum lookup]. rewrite String.eqb_refl.
  cbn [or_undefined]. apply Nat.add_le_mono_l.
  rewrite (map_ext_in _ (fun k => N (or_undefined (lookup own k)))).
  - apply (Nat.le_trans _ _ _ (list_sum_filter_le _ _ _ _)). exact IH.
  - intros k Hk. apply filter_In in Hk as [_ Hk].
    apply negb_true_iff in Hk. rewrite Hk. reflexivity.
Qed.

Lemma select_calls_no_match r : filter is_CallMatch (select_calls r) = [].
Proof.
  unfold select_calls. destruct (matched r); [|reflexivity].
  destruct (selections r) as [sels|]; [|reflexivity].
  induction (keys sels) as [| k ks IH]; simpl; [reflexivity | exact IH].
Qed.

Lemma delegate_one_match f v : count is_CallMatch (trace (delegate f v)) = 1.
Proof.
  unfold delegate, count. destruct (match_ (call f) v) as [r | e]; simpl.
  - rewrite select_calls_no_match. reflexivity.
  - reflexivity.
Qed.

(** X16. [matchPattern] calls [match] at most once at each position of
    the pattern that holds a Matcher: the number of [match] calls is at
    most the number of these positions. *)
Theorem match_calls_bounded_by_matchers p :
  forall v, count is_CallMatch (trace (matchPattern p v)) <= matcher_nodes p.
Proof.
  induction p as [| | b | n | z | s | id | id | m items rest IH | m own rest IH]
    using value_ind; intros v;
    try (rewrite matchPattern_literal by (rewrite isObject_spec; reflexivity);
         apply Nat.le_0_l).
  - destruct (truthy_property m) eqn:Hm.
    + destruct m as [| | f]; try discriminate Hm.
      rewrite (matchPattern_matcher (VArr (Accessor f) items rest) v f eq_refl eq_refl).
      rewrite delegate_one_match. apply Nat.le_refl.
    + assert (Hn : matcher_nodes (VArr m items rest) = list_sum (map matcher_nodes items)).
      { cbn [matcher_nodes]. unfold isMatcher. cbn [symbols_matcher].
        rewrite Hm, !andb_false_r. reflexivity. }
      rewrite Hn, (matchPattern_array m items rest v Hm).
      destruct (negb (isObject v)); [apply Nat.le_0_l|].
      destruct (Array_isArray v) eqn:Ha; cbn [negb]; [|apply Nat.le_0_l].
      destruct (Nat.eqb _ _); [|apply Nat.le_0_l].
      apply everyi_count_le. intros x j Hx.
      destruct v; try discriminate Ha.
      cbn [js_get_index get_index]. rewrite bind_ret_l.
      rewrite Forall_forall in IH. apply IH; exact Hx.
  - destruct (truthy_property m) eqn:Hm.
    + destruct m as [| | f]; try discriminate Hm.
      rewrite (matchPattern_matcher (VObj (Accessor f) own rest) v f eq_refl eq_refl).
      rewrite delegate_one_match. apply Nat.le_refl.
    + assert (Hn : matcher_nodes (VObj m own rest) =
                   list_sum (map (fun kv => matcher_nodes (snd kv)) own)).
      { cbn [matcher_nodes]. unfold isMatcher. cbn [symbols_matcher].
        rewrite Hm, !andb_false_r. reflexivity. }
      rewrite Hn, (matchPattern_record m own rest v Hm).
      destruct (isObject v) eqn:Hv; cbn [negb]; [|apply Nat.le_0_l].
      eapply Nat.le_trans; [|apply (keys_sum_le matcher_nodes own)].
      apply every_count_le. intros k Hk. cbv zeta.
      destruct (isOptionalPattern_returns (get_property (VObj m own rest) k)) as [b Hb].
      rewrite (record_key_test _ v k b Hv Hb).
      destruct (has_property v k || b); [|apply Nat.le_0_l].
      apply (proj1 (In_keys k own)) in Hk.
      destruct (lookup_In own k Hk) as [w [Hw Hin]].
      cbn [get_property]. rewrite Hw. cbn [or_undefined].
      rewrite Forall_forall in IH. apply (IH (k, w) Hin).
Qed.

End Engine.

(** ** The theorems at concrete inputs *)

Lemma matcher_pattern_delegates_witness :
  isObject select_x = true /\
  symbols_matcher host_fn select_x = Accessor 0 /\
  matchPattern host_call host_fn select_x (VStr "a") =
  ([CallMatch 0 (VStr "a"); CallSelect "x" (VStr "a")], Normal true).
Proof.
  split; [reflexivity|]. split; [reflexivity|].
  exact (proj1 (matcher_pattern_delegates host_call host_fn select_x (VStr "a") 0
                  eq_refl eq_refl)).
Defined.

Lemma record_pattern_matches_witness :
  truthy_property Absent = false /\
  succeeds host_call host_fn (VObj Absent [("x", optional_number)] [])
           (VObj Absent [] []).
Proof.
  split; [reflexivity|].
  apply (proj1 (record_pattern_matches host_call host_fn Absent
                  [("x", optional_number)] [] (VObj Absent [] []) eq_refl) eq_refl).
  intros k [<- | []].
  split; [right; exists 1; split; reflexivity | reflexivity].
Defined.

Lemma array_pattern_matches_witness :
  truthy_property Absent = false /\
  ~ succeeds host_call host_fn (VArr Absent [num 1; num 2] [])
             (VArr Absent [num 1; num 2; num 3] []).
Proof.
  split; [reflexivity|]. intros H.
  apply (proj1 (array_pattern_matches host_call host_fn Absent [num 1; num 2] []
                  (VArr Absent [num 1; num 2; num 3] []) eq_refl)) in H.
  destruct H as (m' & elems & rest' & E & Hlen & _).
  injection E as <- <- <-. discriminate Hlen.
Defined.

Lemma literal_pattern_same_value_witness :
  isObject (VNum NaN) = false /\
  matchPattern host_call host_fn (VNum NaN) (VNum NaN) = ([], Normal true).
Proof.
  split; [reflexivity|].
  exact (proj1 (literal_pattern_same_value host_call host_fn (VNum NaN) (VNum NaN)
                  eq_refl)).
Defined.

(** C7. [matchPattern] does not take back the calls of [select] it made:
    on the pattern [[P.select('x'), 1]] and the value [[5, 2]] the first
    sub-pattern matches and selects, the second fails, and [matchPattern]
    returns [false] after one call of [select]. *)
Theorem selections_are_not_rolled_back :
  matchPattern host_call host_fn select_then_one five_two =
  ([CallMatch 0 (num 5); CallSelect "x" (num 5)], Normal false)
  /\ exists call fn_matcher pattern value,
       outcome (matchPattern call fn_matcher pattern value) = Normal false /\
       1 <= count is_CallSelect (trace (matchPattern call fn_matcher pattern value)).
Proof.
  split; [reflexivity|].
  exists host_call, host_fn, select_then_one, five_two.
  split; [reflexivity | apply Nat.le_refl].
Qed.

Lemma selection_keys_enumeration_witness :
  isObject select_x = true /\
  symbols_matcher host_fn select_x = Accessor 0 /\
  getSelectionKeys host_call host_fn select_x = ([CallGetSelectionKeys 0], Normal ["x"]).
Proof.
  split; [reflexivity|]. split; [reflexivity|].
  exact (proj1 (selection_keys_enumeration host_call host_fn select_x) 0 eq_refl eq_refl).
Defined.

Lemma function_pattern_is_literal_witness :
  matchPattern (fun _ => host_call 0) (fun _ => Accessor 0) (VFun 3) (VFun 3) =
  ([], Normal true).
Proof.
  exact (proj1 (proj2 (function_pattern_is_literal (fun _ => host_call 0)
                  (fun _ => Accessor 0) 3 (VFun 3)))).
Defined.

Lemma matching_is_reflexive_witness :
  matcher_free host_fn plain_pattern = true /\
  matchPattern host_call host_fn plain_pattern plain_pattern = ([], Normal true).
Proof.
  split; [reflexivity|].
  exact (matching_is_reflexive host_call host_fn plain_pattern eq_refl).
Defined.

(** ** The engine on the examples of the documentation *)

Example tuple_length_is_exact :
  matchPattern host_call host_fn (VArr Absent [num 1; num 2] [])
    (VArr Absent [num 1; num 2; num 3] []) = ([], Normal false)
  /\ matchPattern host_call host_fn (VArr Absent [num 1; num 2] [])
       (VArr Absent [num 1; num 2] []) = ([], Normal true).
Proof. split; reflexivity. Qed.

Example optional_key_relaxation :
  matchPattern host_call host_fn (VObj Absent [("x", optional_number)] [])
    (VObj Absent [] []) = ([CallMatch 1 VUndefined], Normal true)
  /\ matchPattern host_call host_fn (VObj Absent [("x", optional_number)] [])
       (VObj Absent [("x", num 5)] []) = ([CallMatch 1 (num 5)], Normal true)
  /\ matchPattern host_call host_fn (VObj Absent [("x", optional_number)] [])
       (VObj Absent [("x", VStr "s")] []) = ([CallMatch 1 (VStr "s")], Normal false).
Proof. repeat split; reflexivity. Qed.

Example required_key_must_be_present :
  matchPattern host_call host_fn (VObj Absent [("x", select_x)] [])
    (VObj Absent [] []) = ([], Normal false).
Proof. reflexivity. Qed.

Example record_pattern_on_array_value :
  matchPattern host_call host_fn
    (VObj Absent [("length", num 2); ("1", num 7)] [])
    (VArr Absent [num 5; num 7] []) = ([], Normal true).
Proof. reflexivity. Qed.

Example inherited_property_is_in_the_value :
  matchPattern host_call host_fn (VObj Absent [("toString", optional_number)] [])
    (VObj Absent [] [("toString", VFun 9)]) = ([CallMatch 1 (VFun 9)], Normal false).
Proof. reflexivity. Qed.

Example every_stops_at_the_first_failure :
  matchPattern host_call host_fn
    (VObj Absent [("a", num 1); ("b", faulty_guard)] [])
    (VObj Absent [("a", num 2); ("b", num 1)] []) = ([], Normal false)
  /\ matchPattern host_call host_fn
       (VObj Absent [("b", faulty_guard); ("a", num 1)] [])
       (VObj Absent [("a", num 2); ("b", num 1)] [])
     = ([CallMatch 2 (num 1)], Throw (VStr "boom")).
Proof. split; reflexivity. Qed.

Example selection_keys_of_nested_pattern :
  getSelectionKeys host_call host_fn
    (VObj Absent [("a", select_x);
                  ("b", VArr Absent [select_x; optional_number; num 1] [])] [])
  = ([CallGetSelectionKeys 0; CallGetSelectionKeys 0], Normal ["x"; "x"]).
Proof. reflexivity. Qed.

(** ** What each function reads of the matcher protocol *)

Lemma everyi_ext_in A (f g : A -> nat -> M bool) (l : list A) (i : nat) :
  (forall x j, In x l -> f x j = g x j) -> everyi f l i = everyi g l i.
Proof.
  revert i; induction l as [| x l IH]; intros i H; simpl; [reflexivity|].
  rewrite (H x i (or_introl eq_refl)). apply bind_ext.
  intros [|]; [|reflexivity]. apply IH. intros y j Hy; apply H; right; exact Hy.
Qed.

Lemma isOptionalPattern_reads_matcherType call call' fn x :
  (forall f, matcherType (call f) = matcherType (call' f)) ->
  isOptionalPattern call fn x = isOptionalPattern call' fn x.
Proof.
  intros H. unfold isOptionalPattern, invoke_matcher.
  destruct (isMatcher fn x); [|reflexivity].
  destruct (symbols_matcher fn x) as [| | f]; try reflexivity.
  rewrite !bind_ret_l, H. reflexivity.
Qed.

(** X17. [matchPattern] reads [match] and [matcherType] of the protocol
    objects and nothing else: two hosts that agree on these give the same
    calls and the same result, whatever their [getSelectionKeys]. *)
Theorem matchPattern_reads_match_and_matcherType call call' fn p :
  (forall f v, match_ (call f) v = match_ (call' f) v) ->
  (forall f, matcherType (call f) = matcherType (call' f)) ->
  forall v, matchPattern call fn p v = matchPattern call' fn p v.
Proof.
  intros Hmatch Htype.
  induction p as [| | b | n | z | s | id | id | m items rest IH | m own rest IH]
    using value_ind; intros v;
    try (rewrite !matchPattern_literal by (rewrite isObject_spec; reflexivity);
         reflexivity).
  - destruct (truthy_property m) eqn:Hm.
    + destruct m as [| | f]; try discriminate Hm.
      rewrite (matchPattern_matcher call fn (VArr (Accessor f) items rest) v f eq_refl eq_refl),
              (matchPattern_matcher call' fn (VArr (Accessor f) items rest) v f eq_refl eq_refl).
      unfold delegate. rewrite Hmatch. reflexivity.
    + rewrite (matchPattern_array call fn m items rest v Hm),
              (matchPattern_array call' fn m items rest v Hm).
      destruct (negb (isObject v)); [reflexivity|].
      destruct (negb (Array_isArray v)); [reflexivity|].
      destruct (Nat.eqb _ _); [|reflexivity].
      apply everyi_ext_in. intros x j Hx. apply bind_ext. intros elem.
      rewrite Forall_forall in IH. apply IH; exact Hx.
  - destruct (truthy_property m) eqn:Hm.
    + destruct m as [| | f]; try discriminate Hm.
      rewrite (matchPattern_matcher call fn (VObj (Accessor f) own rest) v f eq_refl eq_refl),
              (matchPattern_matcher call' fn (VObj (Accessor f) own rest) v f eq_refl eq_refl).
      unfold delegate. rewrite Hmatch. reflexivity.
    + rewrite (matchPattern_record call fn m own rest v Hm),
              (matchPattern_record call' fn m own rest v Hm).
      destruct (negb (isObject v)); [reflexivity|].
      apply every_ext_in. intros k Hk. cbv zeta.
      apply bind_ext. intros present.
      rewrite (isOptionalPattern_reads_matcherType call call' fn _ Htype).
      apply bind_ext. intros [|]; [|reflexivity].
      apply bind_ext. intros field.
      destruct (own_property m own rest k Hk) as [w [-> Hin]].
      rewrite Forall_forall in IH. apply (IH (k, w) Hin).
Qed.

(** X18. [getSelectionKeys] reads [getSelectionKeys] of the protocol objects
    and nothing else: two hosts that agree on it give the same calls and
    the same names, whatever their [match] does. *)
Theorem getSelectionKeys_reads_getSelectionKeys_only call call' fn p :
  (forall f, getSelectionKeys_ (call f) = getSelectionKeys_ (call' f)) ->
  getSelectionKeys call fn p = getSelectionKeys call' fn p.
Proof.
  intros Hkeys.
  induction p as [| | b | n | z | s | id | id | m items rest IH | m own rest IH]
    using value_ind;
    try (rewrite !getSelectionKeys_literal by (rewrite isObject_spec; reflexivity);
         reflexivity).
  - destruct (truthy_property m) eqn:Hm.
    + destruct m as [| | f]; try discriminate Hm.
      rewrite (getSelectionKeys_matcher call fn (VArr (Accessor f) items rest) f eq_refl eq_refl),
              (getSelectionKeys_matcher call' fn (VArr (Accessor f) items rest) f eq_refl eq_refl).
      rewrite Hkeys. reflexivity.
    + rewrite (getSelectionKeys_array call fn m items rest Hm),
              (getSelectionKeys_array call' fn m items rest Hm).
      unfold flatMap. apply reduce_ext_in. intros a x Hx.
      rewrite Forall_forall in IH. rewrite (IH x Hx). reflexivity.
  - destruct (truthy_property m) eqn:Hm.
    + destruct m as [| | f]; try discriminate Hm.
      rewrite (getSelectionKeys_matcher call fn (VObj (Accessor f) own rest) f eq_refl eq_refl),
              (getSelectionKeys_matcher call' fn (VObj (Accessor f) own rest) f eq_refl eq_refl).
      rewrite Hkeys. reflexivity.
    + rewrite (getSelectionKeys_record call fn m own rest Hm),
              (getSelectionKeys_record call' fn m own rest Hm).
      unfold flatMap. apply reduce_ext_in. intros a x Hx.
      unfold Object_values in Hx. apply in_map_iff in Hx as [k [<- Hk]].
      destruct (own_property m own rest k Hk) as [w [-> Hin]].
      rewrite Forall_forall in IH.
      generalize (IH (k, w) Hin); cbn [snd]; intros ->. reflexivity.
Qed.

(** ** The further properties at concrete inputs *)

Lemma flatMap_stops_at_throw_witness :
  flatMap ([1] ++ 2 :: [3])
    (fun n => if Nat.eqb n 2 then throw (VStr "boom") else ret [n])
  = ([] ++ [], Throw (VStr "boom")).
Proof.
  exact (flatMap_stops_at_throw nat nat
           (fun n => if Nat.eqb n 2 then throw (VStr "boom") else ret [n])
           [1] [3] 2 [] [] [1] (VStr "boom") eq_refl eq_refl).
Defined.

Lemma tuple_pattern_head_then_tail_witness :
  truthy_property Absent = false /\
  matchPattern host_call host_fn (VArr Absent [num 2; select_x] [])
    (VArr Absent [num 1; num 5] []) =
  matchPattern host_call host_fn (num 2) (num 1).
Proof.
  split; [reflexivity|].
  apply (proj2 (tuple_pattern_head_then_tail host_call host_fn Absent (num 2)
                  [select_x] [] Absent (num 1) [num 5] [] eq_refl eq_refl)).
  discriminate.
Defined.

Lemma tuple_success_reports_in_index_order_witness :
  Forall2 (succeeds host_call host_fn) [select_x; num 1] [num 5; num 1] /\
  matchPattern host_call host_fn (VArr Absent [select_x; num 1] [])
    (VArr Absent [num 5; num 1] []) =
  (pairwise_trace host_call host_fn [select_x; num 1] [num 5; num 1], Normal true).
Proof.
  assert (H : Forall2 (succeeds host_call host_fn) [select_x; num 1] [num 5; num 1]).
  { constructor; [reflexivity|]. constructor; [reflexivity | constructor]. }
  split; [exact H|].
  exact (proj1 (tuple_success_reports_in_index_order host_call host_fn Absent []
                  Absent [] [select_x; num 1] [num 5; num 1] eq_refl H)).
Defined.

Lemma tuple_pattern_stops_at_first_failure_witness :
  matchPattern host_call host_fn
    (VArr Absent ([select_x] ++ num 1 :: [faulty_guard]) [])
    (VArr Absent ([num 5] ++ num 2 :: [num 0]) []) =
  (pairwise_trace host_call host_fn [select_x] [num 5] ++
   trace (matchPattern host_call host_fn (num 1) (num 2)),
   outcome (matchPattern host_call host_fn (num 1) (num 2))).
Proof.
  apply (tuple_pattern_stops_at_first_failure host_call host_fn Absent [] Absent []
           [select_x] [num 5] (num 1) (num 2) [faulty_guard] [num 0] eq_refl).
  - constructor; [reflexivity | constructor].
  - discriminate.
  - reflexivity.
Defined.

Lemma tuple_shape_mismatch_calls_nothing_witness :
  truthy_property Absent = false /\
  matchPattern host_call host_fn (VArr Absent [select_x] [])
    (VArr Absent [num 1; num 2] []) = ([], Normal false).
Proof.
  split; [reflexivity|].
  apply (proj1 (tuple_shape_mismatch_calls_nothing host_call host_fn Absent
                  [select_x] [] eq_refl)).
  discriminate.
Defined.

Lemma record_pattern_head_then_tail_witness :
  ~ In "x" (map fst [("y", num 1)]) /\
  matchPattern host_call host_fn (VObj Absent [("x", select_x); ("y", num 1)] [])
    (VObj Absent [("x", num 5)] []) =
  (b <- key_test host_call host_fn select_x (VObj Absent [("x", num 5)] []) "x" ;;
   if b then matchPattern host_call host_fn (VObj Absent [("y", num 1)] [])
               (VObj Absent [("x", num 5)] [])
   else ret false).
Proof.
  assert (H : ~ In "x" (map fst [("y", num 1)])).
  { intros [H | []]; discriminate H. }
  split; [exact H|].
  exact (proj1 (record_pattern_head_then_tail host_call host_fn Absent "x" select_x
                  [("y", num 1)] [] (VObj Absent [("x", num 5)] []) eq_refl eq_refl H)).
Defined.

Lemma absent_optional_key_matches_undefined_witness :
  matcherType (host_call 1) = Some optional /\
  matchPattern host_call host_fn (VObj Absent [("x", optional_number)] [])
    (VObj Absent [] []) =
  (b <- delegate host_call 1 VUndefined ;;
   if b then matchPattern host_call host_fn (VObj Absent [] []) (VObj Absent [] [])
   else ret false).
Proof.
  split; [reflexivity|].
  exact (absent_optional_key_matches_undefined host_call host_fn Absent "x"
           optional_number 1 [] [] (VObj Absent [] [])
           eq_refl eq_refl (fun H : In "x" [] => H) eq_refl eq_refl eq_refl eq_refl).
Defined.

Lemma matcher_free_pattern_selects_nothing_witness :
  matcher_free host_fn plain_pattern = true /\
  getSelectionKeys host_call host_fn plain_pattern = ([], Normal []).
Proof.
  split; [reflexivity|].
  exact (matcher_free_pattern_selects_nothing host_call host_fn plain_pattern eq_refl).
Defined.

Lemma record_success_reports_in_key_order_witness :
  NoDup (map fst [("a", select_x); ("b", num 1)]) /\
  matchPattern host_call host_fn (VObj Absent [("a", select_x); ("b", num 1)] [])
    (VObj Absent [("b", num 1); ("a", num 5)] []) =
  (keywise_trace host_call host_fn [("a", select_x); ("b", num 1)]
     (VObj Absent [("b", num 1); ("a", num 5)] []), Normal true).
Proof.
  assert (H : NoDup (map fst [("a", select_x); ("b", num 1)])).
  { constructor; [intros [H | []]; discriminate H|].
    constructor; [intros [] | constructor]. }
  split; [exact H|].
  refine (proj1 (record_success_reports_in_key_order host_call host_fn Absent []
                   (VObj Absent [("b", num 1); ("a", num 5)] [])
                   [("a", select_x); ("b", num 1)] eq_refl eq_refl H _)).
  intros kv [<- | [<- | []]]; reflexivity.
Defined.

Lemma matchPattern_reads_match_and_matcherType_witness :
  matchPattern host_call host_fn select_then_one five_two =
  matchPattern
    (fun f => {| match_ := match_ (host_call f);
                 getSelectionKeys_ := None;
                 matcherType := matcherType (host_call f) |})
    host_fn select_then_one five_two.
Proof.
  exact (matchPattern_reads_match_and_matcherType host_call
           (fun f => {| match_ := match_ (host_call f);
                        getSelectionKeys_ := None;
                        matcherType := matcherType (host_call f) |})
           host_fn select_then_one (fun f v => eq_refl) (fun f => eq_refl) five_two).
Defined.

Lemma getSelectionKeys_reads_getSelectionKeys_only_witness :
  getSelectionKeys host_call host_fn select_then_one =
  getSelectionKeys
    (fun f => {| match_ := fun _ => Throw VNull;
                 getSelectionKeys_ := getSelectionKeys_ (host_call f);
                 matcherType := None |})
    host_fn select_then_one.
Proof.
  exact (getSelectionKeys_reads_getSelectionKeys_only host_call
           (fun f => {| match_ := fun _ => Throw VNull;
                        getSelectionKeys_ := getSelectionKeys_ (host_call f);
                        matcherType := None |})
           host_fn select_then_one (fun f => eq_refl)).
Defined.

(** ** The engine of [General]: its branches *)

Section GeneralFacts.

Variable invoke : nat -> key_call.
Variable fn_matcher : nat -> matcher_property.
Variable select : string -> value -> completion unit.
Variable getter : value -> property_key -> property_kind.

#[local] Abbreviation g_run_getter := (General.run_getter getter).
#[local] Abbreviation g_symbols_matcher := (General.symbols_matcher fn_matcher).
#[local] Abbreviation g_get_matcher := (General.get_matcher fn_matcher getter).
#[local] Abbreviation g_get := (General.get getter).
#[local] Abbreviation g_get_at := (General.get_at getter).
#[local] Abbreviation g_invoke_matcher :=
  (General.invoke_matcher invoke fn_matcher getter).
#[local] Abbreviation g_isMatcher := (General.isMatcher fn_matcher getter).
#[local] Abbreviation g_isOptionalPattern :=
  (General.isOptionalPattern invoke fn_matcher getter).
#[local] Abbreviation g_matchPattern :=
  (General.matchPattern invoke fn_matcher select getter).
#[local] Abbreviation g_run_match := (General.run_match select).
#[local] Abbreviation g_delegate := (General.delegate invoke select).
#[local] Abbreviation g_call_select := (General.call_select select).
#[local] Abbreviation g_faulted := (General.faulted invoke select getter).
#[local] Abbreviation g_truthy_keys := (General.truthy_keys fn_matcher).
#[local] Abbreviation g_thrown := (General.thrown invoke fn_matcher select getter).
#[local] Abbreviation g_uncaught := (General.uncaught invoke select getter).
#[local] Abbreviation g_getter_returned := (General.getter_returned getter).
#[local] Abbreviation g_returns_quietly := (General.returns_quietly getter).

(** *** Reads *)

Lemma g_run_getter_data o p : getter o p = Data -> g_run_getter o p = ret tt.
Proof. intros H. unfold General.run_getter. rewrite H. reflexivity. Qed.

Lemma g_get_matcher_truthy x :
  ToBoolean x = true ->
  g_get_matcher x = (g_run_getter x MatcherKey ;;; ret (g_symbols_matcher x)).
Proof. destruct x; intros H; try discriminate H; reflexivity. Qed.

Lemma g_get_composite v k :
  isObject v = true ->
  g_get v k = (g_run_getter v (Named k) ;;; ret (get_property v k)).
Proof.
  intros H. destruct (isObject_shape v H) as [(m & i & r & ->) | (m & o & r & ->)];
    reflexivity.
Qed.

Lemma g_get_at_array m items rest i :
  g_get_at (VArr m items rest) i =
  (g_run_getter (VArr m items rest) (Named (string_of_nat i)) ;;;
   ret (nth i items VUndefined)).
Proof. reflexivity. Qed.

Lemma g_isMatcher_truthy_input x :
  ToBoolean x = true ->
  g_isMatcher x =
  (g_run_getter x MatcherKey ;;; ret (VBool (truthy_property (g_symbols_matcher x)))).
Proof.
  intros H. unfold General.isMatcher. rewrite H, (g_get_matcher_truthy x H).
  rewrite bind_assoc. apply bind_ext. intros _. rewrite bind_ret_l. reflexivity.
Qed.

Lemma g_isMatcher_falsy_input x : ToBoolean x = false -> g_isMatcher x = ret x.
Proof. intros H. unfold General.isMatcher. rewrite H. reflexivity. Qed.

Lemma falsy_input_no_key x f :
  ToBoolean x = false -> g_symbols_matcher x <> Accessor f.
Proof. destruct x; intros H; try discriminate H; discriminate. Qed.

Lemma g_invoke_matcher_key x f :
  ToBoolean x = true -> g_symbols_matcher x = Accessor f ->
  g_invoke_matcher x =
  (g_run_getter x MatcherKey ;;;
   match invoke f with
   | NotAFunction => throw TypeError
   | Raises e => ([CallAccessor f], Throw e)
   | Returns matcher => ([CallAccessor f], Normal (f, matcher))
   end).
Proof.
  intros Hx Hf. unfold General.invoke_matcher. rewrite (g_get_matcher_truthy x Hx).
  rewrite bind_assoc. apply bind_ext. intros _. rewrite bind_ret_l, Hf. reflexivity.
Qed.

(** *** The three branches of matchPattern *)

Lemma g_matchPattern_matcher p v f :
  isObject p = true -> g_symbols_matcher p = Accessor f ->
  g_matchPattern p v =
  (g_run_getter p MatcherKey ;;; g_run_getter p MatcherKey ;;; g_delegate f v).
Proof.
  intros Ho Hm.
  destruct (isObject_shape p Ho) as [(m & i & r & ->) | (m & o & r & ->)];
    cbn [General.matchPattern];
    match goal with |- context [isObject ?x] => change (isObject x) with true end;
    cbv iota;
    match goal with
    | |- context [g_isMatcher ?x] =>
        rewrite (g_isMatcher_truthy_input x eq_refl), bind_assoc;
        apply bind_ext; intros _; rewrite bind_ret_l, Hm;
        cbn [truthy_property ToBoolean];
        rewrite (g_invoke_matcher_key x f eq_refl Hm), bind_assoc
    end;
    apply bind_ext; intros _; unfold General.delegate;
    destruct (invoke f); reflexivity.
Qed.

Lemma g_matchPattern_literal p v :
  isObject p = false -> g_matchPattern p v = ret (Object_is v p).
Proof.
  destruct p; intros H; try reflexivity; try discriminate H;
    cbn -[ToBoolean]; unfold isObject; cbn -[ToBoolean];
    rewrite andb_false_r; reflexivity.
Qed.

Lemma g_matchPattern_array m items rest v :
  truthy_property m = false ->
  g_matchPattern (VArr m items rest) v =
  (g_run_getter (VArr m items rest) MatcherKey ;;;
   if negb (isObject v) then ret false
   else if negb (Array_isArray v) then ret false
   else if Nat.eqb (List.length items) (length_of v) then
     everyi (fun subPattern i =>
               g_run_getter (VArr m items rest) (Named (string_of_nat i)) ;;;
               elem <- g_get_at v i ;;
               g_matchPattern subPattern elem)
            items 0
   else ret false).
Proof.
  intros Hm. cbn [General.matchPattern].
  change (isObject (VArr m items rest)) with true. cbv iota.
  rewrite (g_isMatcher_truthy_input (VArr m items rest) eq_refl), bind_assoc.
  apply bind_ext. intros _. rewrite bind_ret_l.
  cbn [General.symbols_matcher]. rewrite Hm. reflexivity.
Qed.

Lemma g_matchPattern_record m own rest v :
  truthy_property m = false ->
  g_matchPattern (VObj m own rest) v =
  (g_run_getter (VObj m own rest) MatcherKey ;;;
   if negb (isObject v) then ret false
   else
     every (fun k =>
              g_run_getter (VObj m own rest) (Named k) ;;;
              present <- js_in k v ;;
              ok <- (if present then ret (VBool true)
                     else g_isOptionalPattern (get_property (VObj m own rest) k)) ;;
              if ToBoolean ok then
                field <- g_get v k ;;
                g_matchPattern (get_property (VObj m own rest) k) field
              else ret false)
           (Object_keys (VObj m own rest))).
Proof.
  intros Hm. cbn [General.matchPattern].
  change (isObject (VObj m own rest)) with true. cbv iota.
  rewrite (g_isMatcher_truthy_input (VObj m own rest) eq_refl), bind_assoc.
  apply bind_ext. intros _. rewrite bind_ret_l.
  cbn [General.symbols_matcher]. rewrite Hm. cbn [ToBoolean].
  destruct (negb (isObject v)); [reflexivity|].
  apply every_ext_in. intros k Hk.
  apply (proj1 (In_keys k own)) in Hk. destruct (lookup_In own k Hk) as [w [Hw _]].
  cbn [get_property]. rewrite Hw.
  apply bind_ext. intros _. apply bind_ext. intros present.
  apply bind_ext. intros ok. destruct (ToBoolean ok); [|reflexivity].
  apply bind_ext. intros field. rewrite lookup_with_lookup, Hw. reflexivity.
Qed.


(** *** isMatcher and isOptionalPattern *)

Lemma g_isMatcher_truthy x :
  (exists t r, g_isMatcher x = (t, Normal r) /\ ToBoolean r = true) <->
  (exists f, g_symbols_matcher x = Accessor f) /\
  (forall e, getter x MatcherKey <> GetterThrows e).
Proof.
  destruct (ToBoolean x) eqn:Hx.
  - rewrite (g_isMatcher_truthy_input x Hx). unfold General.run_getter.
    destruct (getter x MatcherKey) as [| | e0];
      destruct (g_symbols_matcher x) as [| | f]; cbn; split.
    all: try (intros (t & r & H & Hr); injection H as <- <-; discriminate Hr).
    all: try (intros (t & r & H & Hr); discriminate H).
    all: try (intros [[f' H] _]; discriminate H).
    all: try (intros [_ H]; exfalso; apply (H e0); reflexivity).
    + intros _. split; [exists f; reflexivity | discriminate].
    + intros _. eexists _, _. split; reflexivity.
    + intros _. split; [exists f; reflexivity | discriminate].
    + intros _. eexists _, _. split; reflexivity.
  - rewrite (g_isMatcher_falsy_input x Hx). split.
    + intros (t & r & H & Hr). injection H as <- <-. rewrite Hx in Hr. discriminate Hr.
    + intros [[f H] _]. exfalso. exact (falsy_input_no_key x f Hx H).
Qed.

Lemma g_isOptionalPattern_without_key x :
  (forall f, g_symbols_matcher x <> Accessor f) ->
  g_isOptionalPattern x =
  if ToBoolean x then g_run_getter x MatcherKey ;;; ret (VBool false) else ret x.
Proof.
  intros H. unfold General.isOptionalPattern. destruct (ToBoolean x) eqn:Hx.
  - rewrite (g_isMatcher_truthy_input x Hx), bind_assoc.
    apply bind_ext. intros _. rewrite bind_ret_l.
    destruct (g_symbols_matcher x) as [| | f]; try reflexivity.
    exfalso; exact (H f eq_refl).
  - rewrite (g_isMatcher_falsy_input x Hx), bind_ret_l, Hx. reflexivity.
Qed.

Lemma g_isOptionalPattern_with_key x f :
  g_symbols_matcher x = Accessor f ->
  g_isOptionalPattern x =
  (g_run_getter x MatcherKey ;;; g_run_getter x MatcherKey ;;;
   match invoke f with
   | NotAFunction => throw TypeError
   | Raises e => ([CallAccessor f], Throw e)
   | Returns matcher =>
       ([CallAccessor f],
        Normal (VBool match matcherType matcher with
                      | Some t => MatcherType_eqb t optional
                      | None => false
                      end))
   end).
Proof.
  intros Hf.
  assert (Hx : ToBoolean x = true).
  { destruct (ToBoolean x) eqn:Hx; [reflexivity|].
    exfalso. exact (falsy_input_no_key x f Hx Hf). }
  unfold General.isOptionalPattern.
  rewrite (g_isMatcher_truthy_input x Hx), bind_assoc.
  apply bind_ext. intros _. rewrite bind_ret_l, Hf. cbn [truthy_property ToBoolean].
  rewrite (g_invoke_matcher_key x f Hx Hf), bind_assoc.
  apply bind_ext. intros _. destruct (invoke f); reflexivity.
Qed.

Lemma forEach_select_events (g : string -> value) (ks : list string) :
  forallb is_CallSelect
    (trace (forEach (fun key => g_call_select key (g key)) ks)) = true.
Proof.
  induction ks as [| k ks IH]; [reflexivity|].
  cbn [forEach]. rewrite trace_bind, forallb_app.
  unfold General.call_select at 1 2. cbn [trace outcome fst snd forallb is_CallSelect andb].
  destruct (select k (g k)); [exact IH | reflexivity].
Qed.

Lemma g_delegate_trace f v matcher :
  invoke f = Returns matcher ->
  exists t, trace (g_delegate f v) = CallAccessor f :: CallMatch f v :: t
            /\ forallb is_CallSelect t = true.
Proof.
  intros Hi. unfold General.delegate, General.run_match. rewrite Hi.
  rewrite trace_bind. cbn [emit trace outcome fst snd app].
  rewrite trace_bind. unfold General.call_match at 1 2. cbn [trace outcome fst snd app].
  eexists. split; [reflexivity|].
  destruct (match_ matcher v) as [r | e]; [|reflexivity].
  rewrite trace_bind, forallb_app. apply andb_true_iff. split.
  - destruct (matched r); [|reflexivity].
    destruct (selections r) as [sels|]; [|reflexivity].
    apply forEach_select_events.
  - destruct (outcome _); reflexivity.
Qed.



(** *** Where a thrown value comes from *)

Lemma g_thrown_prefix p : prefix_closed (g_thrown p).
Proof.
  intros t0 t e [(t' & ev & -> & H) | H].
  - left. exists (t0 ++ t'), ev. rewrite app_assoc. split; [reflexivity | exact H].
  - right. exact H.
Qed.

Lemma g_thrown_sub p q t e :
  (forall f, In f (g_truthy_keys q) -> In f (g_truthy_keys p)) ->
  g_thrown q t e -> g_thrown p t e.
Proof.
  intros Hsub [H | (He & f & Hf & Hi)]; [left; exact H|].
  right. split; [exact He|]. exists f. split; [apply Hsub; exact Hf | exact Hi].
Qed.

Lemma g_truthy_keys_item m items rest x f :
  In x items -> In f (g_truthy_keys x) -> In f (g_truthy_keys (VArr m items rest)).
Proof.
  intros Hx Hf. cbn [General.truthy_keys]. apply in_or_app. right.
  apply in_concat. exists (g_truthy_keys x). split; [|exact Hf].
  apply in_map. exact Hx.
Qed.

Lemma g_truthy_keys_entry m own rest k w f :
  In (k, w) own -> In f (g_truthy_keys w) -> In f (g_truthy_keys (VObj m own rest)).
Proof.
  intros Hx Hf. cbn [General.truthy_keys]. apply in_or_app. right.
  apply in_concat. exists (g_truthy_keys w). split; [|exact Hf].
  apply (in_map (fun kv => g_truthy_keys (snd kv)) own (k, w) Hx).
Qed.

Lemma g_truthy_keys_head x f :
  g_symbols_matcher x = Accessor f -> In f (g_truthy_keys x).
Proof.
  intros Hf. destruct x; simpl in Hf; try discriminate Hf;
    cbn [General.truthy_keys General.symbols_matcher]; rewrite Hf;
    left; reflexivity.
Qed.

Lemma g_run_getter_throws p o q t e :
  g_run_getter o q = (t, Throw e) -> g_thrown p t e.
Proof.
  unfold General.run_getter. destruct (getter o q) as [| | e0] eqn:Hg;
    try discriminate.
  intros H; injection H as <- <-. left. exists [], (CallGetter o q).
  split; [reflexivity | exact Hg].
Qed.

Lemma forEach_select_throws (g : string -> value) (ks : list string) t e :
  forEach (fun key => g_call_select key (g key)) ks = (t, Throw e) ->
  exists t' key, t = t' ++ [CallSelect key (g key)] /\ select key (g key) = Throw e.
Proof.
  revert t; induction ks as [| k ks IH]; intros t; cbn [forEach]; [discriminate|].
  unfold General.call_select at 1. destruct (select k (g k)) as [[] | e0] eqn:E.
  - rewrite bind_normal. destruct (forEach _ ks) as [t1 c1] eqn:Ef.
    cbn [trace outcome fst snd]. intros H; injection H as <- ->.
    destruct (IH t1 eq_refl) as (t' & key & -> & Hk).
    exists (CallSelect k (g k) :: t'), key. split; [reflexivity | exact Hk].
  - unfold bind. intros H; injection H as <- <-.
    exists [], k. split; [reflexivity | exact E].
Qed.

Lemma g_delegate_throws p f v t e :
  In f (g_truthy_keys p) -> g_delegate f v = (t, Throw e) -> g_thrown p t e.
Proof.
  intros Hin. unfold General.delegate. destruct (invoke f) as [| e0 | matcher] eqn:Hi.
  - intros H; injection H as <- <-. right. split; [reflexivity|].
    exists f. split; assumption.
  - intros H; injection H as <- <-. left. exists [], (CallAccessor f).
    split; [reflexivity | exact Hi].
  - revert t e. apply bind_throws; [apply g_thrown_prefix | discriminate |].
    intros _. unfold General.run_match.
    apply bind_throws; [apply g_thrown_prefix | |].
    + intros t0 e0. unfold General.call_match. intros H; injection H as <- H.
      left. exists [], (CallMatch f v). split; [reflexivity|].
      exists matcher. split; assumption.
    + intros r. apply bind_throws; [apply g_thrown_prefix | | discriminate].
      intros t0 e0 H. left.
      destruct (matched r); [|discriminate H].
      destruct (selections r) as [sels|]; [|discriminate H].
      destruct (forEach_select_throws _ _ _ _ H) as (t' & key & -> & Hk).
      exists t', (CallSelect key (or_undefined (lookup sels key))).
      split; [reflexivity | exact Hk].
Qed.

Lemma g_isOptionalPattern_throws p x t e :
  (forall f, In f (g_truthy_keys x) -> In f (g_truthy_keys p)) ->
  g_isOptionalPattern x = (t, Throw e) -> g_thrown p t e.
Proof.
  intros Hsub. destruct (g_symbols_matcher x) as [| | f] eqn:Hx.
  1, 2: rewrite g_isOptionalPattern_without_key
          by (intros f Hf; rewrite Hx in Hf; discriminate Hf);
        (destruct (ToBoolean x); [|discriminate]);
        revert t e; (apply bind_throws; [apply g_thrown_prefix | | discriminate]);
        intros t e; apply g_run_getter_throws.
  rewrite (g_isOptionalPattern_with_key x f Hx). revert t e.
  apply bind_throws; [apply g_thrown_prefix | intros t e; apply g_run_getter_throws |].
  intros _.
  apply bind_throws; [apply g_thrown_prefix | intros t e; apply g_run_getter_throws |].
  intros _ t e.
  destruct (invoke f) as [| e0 | matcher] eqn:Hi; [| |discriminate].
  - intros H; injection H as <- <-. right. split; [reflexivity|].
    exists f. split; [apply Hsub, g_truthy_keys_head; exact Hx | exact Hi].
  - intros H; injection H as <- <-. left. exists [], (CallAccessor f).
    split; [reflexivity | exact Hi].
Qed.

Lemma g_throws p :
  forall v t e, g_matchPattern p v = (t, Throw e) -> g_thrown p t e.
Proof.
  induction p as [| | b | n | z | s | id | id | m items rest IH | m own rest IH]
    using value_ind; intros v;
    try (intros t e;
         rewrite g_matchPattern_literal by (rewrite isObject_spec; reflexivity);
         discriminate).
  - destruct (truthy_property m) eqn:Hm.
    + destruct m as [| | f]; try discriminate Hm.
      rewrite (g_matchPattern_matcher (VArr (Accessor f) items rest) v f eq_refl eq_refl).
      apply bind_throws; [apply g_thrown_prefix | intros t e; apply g_run_getter_throws |].
      intros _.
      apply bind_throws; [apply g_thrown_prefix | intros t e; apply g_run_getter_throws |].
      intros _ t e. apply g_delegate_throws. apply g_truthy_keys_head. reflexivity.
    + rewrite (g_matchPattern_array m items rest v Hm).
      apply bind_throws; [apply g_thrown_prefix | intros t e; apply g_run_getter_throws |].
      intros _.
      destruct (isObject v) eqn:Hv; simpl negb; cbv iota; [|discriminate].
      destruct (isObject_shape v Hv) as [(m' & el & r' & ->) | (m' & o & r' & ->)];
        simpl Array_isArray; simpl negb; cbv iota; [|discriminate].
      destruct (Nat.eqb _ _); [|discriminate].
      apply everyi_throws; [apply g_thrown_prefix|].
      intros x j t' e' Hx. revert t' e'.
      apply bind_throws; [apply g_thrown_prefix | intros t e; apply g_run_getter_throws |].
      intros _. rewrite g_get_at_array, bind_assoc.
      apply bind_throws; [apply g_thrown_prefix | intros t e; apply g_run_getter_throws |].
      intros _. rewrite bind_ret_l. intros t e H.
      apply (g_thrown_sub _ x).
      * intros f. apply g_truthy_keys_item. exact Hx.
      * rewrite Forall_forall in IH. apply (IH x Hx _ _ _ H).
  - destruct (truthy_property m) eqn:Hm.
    + destruct m as [| | f]; try discriminate Hm.
      rewrite (g_matchPattern_matcher (VObj (Accessor f) own rest) v f eq_refl eq_refl).
      apply bind_throws; [apply g_thrown_prefix | intros t e; apply g_run_getter_throws |].
      intros _.
      apply bind_throws; [apply g_thrown_prefix | intros t e; apply g_run_getter_throws |].
      intros _ t e. apply g_delegate_throws. apply g_truthy_keys_head. reflexivity.
    + rewrite (g_matchPattern_record m own rest v Hm).
      apply bind_throws; [apply g_thrown_prefix | intros t e; apply g_run_getter_throws |].
      intros _.
      destruct (isObject v) eqn:Hv; simpl negb; cbv iota; [|discriminate].
      apply every_throws; [apply g_thrown_prefix|].
      intros k t' e' Hk. revert t' e'.
      destruct (own_property m own rest k Hk) as [w [-> Hin]].
      apply bind_throws; [apply g_thrown_prefix | intros t e; apply g_run_getter_throws |].
      intros _. rewrite (js_in_composite k v Hv), bind_ret_l.
      apply bind_throws; [apply g_thrown_prefix | |].
      * intros t0 e0. destruct (has_property v k); [discriminate|].
        apply g_isOptionalPattern_throws. intros f.
        apply (g_truthy_keys_entry m own rest k w f Hin).
      * intros ok. destruct (ToBoolean ok); [|discriminate].
        rewrite (g_get_composite v k Hv), bind_assoc.
        apply bind_throws;
          [apply g_thrown_prefix | intros t e; apply g_run_getter_throws |].
        intros _. rewrite bind_ret_l. intros t e H. apply (g_thrown_sub _ w).
        -- intros f. apply (g_truthy_keys_entry m own rest k w f Hin).
        -- rewrite Forall_forall in IH. apply (IH (k, w) Hin _ _ _ H).
Qed.


(** *** Patterns that hold nothing truthy under the matcher key *)

Lemma concat_nil_all A (ls : list (list A)) :
  List.concat ls = [] -> forall l, In l ls -> l = [].
Proof.
  induction ls as [| x ls IH]; simpl; intros H l Hl; [contradiction|].
  apply app_eq_nil in H as [Hx Hls]. destruct Hl as [<- | Hl]; [exact Hx|].
  apply IH; assumption.
Qed.

Lemma g_no_key_head x :
  g_truthy_keys x = [] -> forall f, g_symbols_matcher x <> Accessor f.
Proof.
  intros H f Hf. apply g_truthy_keys_head in Hf. rewrite H in Hf. contradiction.
Qed.

Lemma quiet_ret A (a : A) : g_returns_quietly (ret a).
Proof. exists [], a. split; [reflexivity | constructor]. Qed.

Lemma quiet_bind A B (m : M A) (k : A -> M B) :
  g_returns_quietly m -> (forall a, g_returns_quietly (k a)) ->
  g_returns_quietly (bind m k).
Proof.
  intros (t & a & -> & Ht) Hk. destruct (Hk a) as (t' & b & E & Ht').
  exists (t ++ t'), b. rewrite bind_normal, E. split; [reflexivity|].
  apply Forall_app. split; assumption.
Qed.

Lemma quiet_every A (f : A -> M bool) (l : list A) :
  (forall x, In x l -> g_returns_quietly (f x)) -> g_returns_quietly (every f l).
Proof.
  induction l as [| x l IH]; intros H; [apply quiet_ret|].
  cbn [every]. apply quiet_bind; [apply H; left; reflexivity|].
  intros [|]; [|apply quiet_ret]. apply IH. intros y Hy; apply H; right; exact Hy.
Qed.

Lemma quiet_everyi A (f : A -> nat -> M bool) (l : list A) (i : nat) :
  (forall x j, In x l -> g_returns_quietly (f x j)) ->
  g_returns_quietly (everyi f l i).
Proof.
  revert i; induction l as [| x l IH]; intros i H; [apply quiet_ret|].
  cbn [everyi]. apply quiet_bind; [apply H; left; reflexivity|].
  intros [|]; [|apply quiet_ret]. apply IH. intros y j Hy; apply H; right; exact Hy.
Qed.

Lemma quiet_run_getter o q :
  (forall e, getter o q <> GetterThrows e) -> g_returns_quietly (g_run_getter o q).
Proof.
  intros H. unfold General.run_getter. destruct (getter o q) as [| | e] eqn:Hg.
  - apply quiet_ret.
  - exists [CallGetter o q], tt. split; [reflexivity|].
    constructor; [exact Hg | constructor].
  - exfalso; exact (H e eq_refl).
Qed.

Lemma quiet_plain A (m : M A) :
  (forall o q, getter o q = Data) -> g_returns_quietly m ->
  exists a, m = ([], Normal a).
Proof.
  intros Hd (t & a & -> & Ht). exists a. destruct t as [| ev t]; [reflexivity|].
  exfalso. inversion Ht as [| ? ? Hev _]; subst.
  destruct ev; try contradiction. cbn in Hev. rewrite Hd in Hev. discriminate Hev.
Qed.

Lemma g_no_key_returns p :
  (forall o q e, getter o q <> GetterThrows e) ->
  g_truthy_keys p = [] -> forall v, g_returns_quietly (g_matchPattern p v).
Proof.
  intros Hg.
  induction p as [| | b | n | z | s | id | id | m items rest IH | m own rest IH]
    using value_ind; intros Hk v;
    try (rewrite g_matchPattern_literal by (rewrite isObject_spec; reflexivity);
         apply quiet_ret).
  - assert (Hm : truthy_property m = false).
    { generalize (g_no_key_head _ Hk). cbn [General.symbols_matcher].
      destruct m as [| | f]; intros H; try reflexivity. exfalso; exact (H f eq_refl). }
    cbn [General.truthy_keys] in Hk. apply app_eq_nil in Hk as [_ Hk].
    rewrite (g_matchPattern_array m items rest v Hm).
    apply quiet_bind; [apply quiet_run_getter, Hg|]. intros _.
    destruct (isObject v) eqn:Hv; simpl negb; cbv iota; [|apply quiet_ret].
    destruct (isObject_shape v Hv) as [(m' & el & r' & ->) | (m' & o & r' & ->)];
      simpl Array_isArray; simpl negb; cbv iota; [|apply quiet_ret].
    destruct (Nat.eqb _ _); [|apply quiet_ret].
    apply quiet_everyi. intros x j Hx.
    apply quiet_bind; [apply quiet_run_getter, Hg|]. intros _.
    rewrite g_get_at_array, bind_assoc.
    apply quiet_bind; [apply quiet_run_getter, Hg|]. intros _. rewrite bind_ret_l.
    rewrite Forall_forall in IH. apply (IH x Hx).
    apply (concat_nil_all _ _ Hk). apply in_map. exact Hx.
  - assert (Hm : truthy_property m = false).
    { generalize (g_no_key_head _ Hk). cbn [General.symbols_matcher].
      destruct m as [| | f]; intros H; try reflexivity. exfalso; exact (H f eq_refl). }
    cbn [General.truthy_keys] in Hk. apply app_eq_nil in Hk as [_ Hk].
    rewrite (g_matchPattern_record m own rest v Hm).
    apply quiet_bind; [apply quiet_run_getter, Hg|]. intros _.
    destruct (isObject v) eqn:Hv; simpl negb; cbv iota; [|apply quiet_ret].
    apply quiet_every. intros k Hin.
    destruct (own_property m own rest k Hin) as [w [-> Hw]].
    assert (Hkw : g_truthy_keys w = []).
    { apply (concat_nil_all _ _ Hk).
      apply (in_map (fun kv => g_truthy_keys (snd kv)) own (k, w) Hw). }
    apply quiet_bind; [apply quiet_run_getter, Hg|]. intros _.
    rewrite (js_in_composite k v Hv), bind_ret_l.
    rewrite Forall_forall in IH.
    assert (Hgo : g_returns_quietly
                    (field <- g_get v k ;; g_matchPattern w field)).
    { rewrite (g_get_composite v k Hv), bind_assoc.
      apply quiet_bind; [apply quiet_run_getter, Hg|]. intros _. rewrite bind_ret_l.
      apply (IH (k, w) Hw Hkw). }
    destruct (has_property v k).
    + rewrite bind_ret_l. cbn [ToBoolean]. exact Hgo.
    + rewrite (g_isOptionalPattern_without_key w (g_no_key_head w Hkw)).
      destruct (ToBoolean w) eqn:Htw.
      * rewrite bind_assoc. apply quiet_bind; [apply quiet_run_getter, Hg|].
        intros _. rewrite bind_ret_l. apply quiet_ret.
      * rewrite bind_ret_l, Htw. apply quiet_ret.
Qed.

(** *** Nothing is caught *)

Lemma app_eq_app_cons (l1 l2 t1 t2 : list event) (ev : event) :
  l1 ++ l2 = t1 ++ ev :: t2 ->
  (exists t2', l1 = t1 ++ ev :: t2' /\ t2 = t2' ++ l2) \/
  (exists t1', t1 = l1 ++ t1' /\ l2 = t1' ++ ev :: t2).
Proof.
  revert t1; induction l1 as [| x l1 IH]; intros t1 H; simpl in H.
  - right. exists t1. split; [reflexivity | exact H].
  - destruct t1 as [| y t1]; simpl in H; injection H as -> H.
    + left. exists l1. split; [reflexivity | symmetry; exact H].
    + destruct (IH t1 H) as [(t2' & -> & ->) | (t1' & -> & ->)].
      * left. exists t2'. split; reflexivity.
      * right. exists t1'. split; reflexivity.
Qed.

Lemma uncaught_silent A (m : M A) : trace m = [] -> g_uncaught m.
Proof.
  intros H t1 ev t2 e Ht. rewrite H in Ht. destruct t1; discriminate Ht.
Qed.

Lemma uncaught_single A (ev : event) (c : completion A) :
  (forall e, g_faulted ev e -> c = Throw e) -> g_uncaught ([ev], c).
Proof.
  intros H t1 ev' t2 e Ht Hf. cbn [trace fst] in Ht.
  destruct t1 as [| y t1]; [|destruct t1; discriminate Ht].
  injection Ht as -> <-. split; [reflexivity | apply H; exact Hf].
Qed.

Lemma uncaught_bind A B (m : M A) (k : A -> M B) :
  g_uncaught m -> (forall a, outcome m = Normal a -> g_uncaught (k a)) ->
  g_uncaught (bind m k).
Proof.
  intros Hm Hk t1 ev t2 e Ht Hf. rewrite trace_bind in Ht. rewrite outcome_bind.
  destruct (app_eq_app_cons _ _ _ _ _ Ht) as [(t2' & E1 & E2) | (t1' & E1 & E2)].
  - destruct (Hm t1 ev t2' e E1 Hf) as [-> Ho]. rewrite Ho in E2 |- *.
    subst t2. split; reflexivity.
  - destruct (outcome m) as [a | e0].
    + apply (Hk a eq_refl t1' ev t2 e E2 Hf).
    + destruct t1'; discriminate E2.
Qed.

Lemma uncaught_every A (f : A -> M bool) (l : list A) :
  (forall x, In x l -> g_uncaught (f x)) -> g_uncaught (every f l).
Proof.
  induction l as [| x l IH]; intros H; [apply uncaught_silent; reflexivity|].
  cbn [every]. apply uncaught_bind; [apply H; left; reflexivity|].
  intros [|] _; [|apply uncaught_silent; reflexivity].
  apply IH. intros y Hy; apply H; right; exact Hy.
Qed.

Lemma uncaught_everyi A (f : A -> nat -> M bool) (l : list A) (i : nat) :
  (forall x j, In x l -> g_uncaught (f x j)) -> g_uncaught (everyi f l i).
Proof.
  revert i; induction l as [| x l IH]; intros i H; [apply uncaught_silent; reflexivity|].
  cbn [everyi]. apply uncaught_bind; [apply H; left; reflexivity|].
  intros [|] _; [|apply uncaught_silent; reflexivity].
  apply IH. intros y j Hy; apply H; right; exact Hy.
Qed.

Lemma uncaught_run_getter o q : g_uncaught (g_run_getter o q).
Proof.
  unfold General.run_getter. destruct (getter o q) as [| | e0] eqn:Hg.
  - apply uncaught_silent; reflexivity.
  - apply uncaught_single. intros e He. cbn [General.faulted] in He.
    rewrite Hg in He. discriminate He.
  - apply uncaught_single. intros e He. cbn [General.faulted] in He.
    rewrite Hg in He. injection He as ->. reflexivity.
Qed.

Lemma uncaught_forEach_select (g : string -> value) (ks : list string) :
  g_uncaught (forEach (fun key => g_call_select key (g key)) ks).
Proof.
  induction ks as [| k ks IH]; [apply uncaught_silent; reflexivity|].
  cbn [forEach]. apply uncaught_bind; [|intros _ _; exact IH].
  apply uncaught_single. intros e He. exact He.
Qed.

Lemma uncaught_delegate f v : g_uncaught (g_delegate f v).
Proof.
  unfold General.delegate. destruct (invoke f) as [| e0 | matcher] eqn:Hi.
  - apply uncaught_silent; reflexivity.
  - apply uncaught_single. intros e He. cbn [General.faulted] in He.
    rewrite Hi in He. injection He as ->. reflexivity.
  - apply uncaught_bind.
    + apply uncaught_single. intros e He. cbn [General.faulted] in He.
      rewrite Hi in He. discriminate He.
    + intros _ _. unfold General.run_match. apply uncaught_bind.
      * apply uncaught_single. intros e (matcher' & Hm' & He).
        rewrite Hi in Hm'. injection Hm' as <-. exact He.
      * intros r _. apply uncaught_bind; [|intros _ _; apply uncaught_silent; reflexivity].
        destruct (matched r); [|apply uncaught_silent; reflexivity].
        destruct (selections r) as [sels|]; [|apply uncaught_silent; reflexivity].
        apply uncaught_forEach_select.
Qed.

Lemma uncaught_isOptionalPattern x : g_uncaught (g_isOptionalPattern x).
Proof.
  destruct (g_symbols_matcher x) as [| | f] eqn:Hx.
  1, 2: rewrite g_isOptionalPattern_without_key
          by (intros f Hf; rewrite Hx in Hf; discriminate Hf);
        (destruct (ToBoolean x); [|apply uncaught_silent; reflexivity]);
        (apply uncaught_bind; [apply uncaught_run_getter|]);
        intros _ _; apply uncaught_silent; reflexivity.
  rewrite (g_isOptionalPattern_with_key x f Hx).
  apply uncaught_bind; [apply uncaught_run_getter|]. intros _ _.
  apply uncaught_bind; [apply uncaught_run_getter|]. intros _ _.
  destruct (invoke f) as [| e0 | matcher] eqn:Hi.
  - apply uncaught_silent; reflexivity.
  - apply uncaught_single. intros e He. cbn [General.faulted] in He.
    rewrite Hi in He. injection He as ->. reflexivity.
  - apply uncaught_single. intros e He. cbn [General.faulted] in He.
    rewrite Hi in He. discriminate He.
Qed.

Lemma uncaught_get v k : g_uncaught (g_get v k).
Proof.
  destruct v; try (apply uncaught_silent; reflexivity);
    (apply uncaught_bind; [apply uncaught_run_getter|]);
    intros _ _; apply uncaught_silent; reflexivity.
Qed.

Lemma uncaught_get_at v i : g_uncaught (g_get_at v i).
Proof.
  destruct v; try (apply uncaught_silent; reflexivity);
    (apply uncaught_bind; [apply uncaught_run_getter|]);
    intros _ _; apply uncaught_silent; reflexivity.
Qed.

Lemma g_uncaught_matchPattern p : forall v, g_uncaught (g_matchPattern p v).
Proof.
  induction p as [| | b | n | z | s | id | id | m items rest IH | m own rest IH]
    using value_ind; intros v;
    try (rewrite g_matchPattern_literal by (rewrite isObject_spec; reflexivity);
         apply uncaught_silent; reflexivity).
  - destruct (truthy_property m) eqn:Hm.
    + destruct m as [| | f]; try discriminate Hm.
      rewrite (g_matchPattern_matcher (VArr (Accessor f) items rest) v f eq_refl eq_refl).
      apply uncaught_bind; [apply uncaught_run_getter|]. intros _ _.
      apply uncaught_bind; [apply uncaught_run_getter|]. intros _ _.
      apply uncaught_delegate.
    + rewrite (g_matchPattern_array m items rest v Hm).
      apply uncaught_bind; [apply uncaught_run_getter|]. intros _ _.
      destruct (negb (isObject v)); [apply uncaught_silent; reflexivity|].
      destruct (negb (Array_isArray v)); [apply uncaught_silent; reflexivity|].
      destruct (Nat.eqb _ _); [|apply uncaught_silent; reflexivity].
      apply uncaught_everyi. intros x j Hx.
      apply uncaught_bind; [apply uncaught_run_getter|]. intros _ _.
      apply uncaught_bind; [apply uncaught_get_at|].
      intros elem _. rewrite Forall_forall in IH. apply (IH x Hx).
  - destruct (truthy_property m) eqn:Hm.
    + destruct m as [| | f]; try discriminate Hm.
      rewrite (g_matchPattern_matcher (VObj (Accessor f) own rest) v f eq_refl eq_refl).
      apply uncaught_bind; [apply uncaught_run_getter|]. intros _ _.
      apply uncaught_bind; [apply uncaught_run_getter|]. intros _ _.
      apply uncaught_delegate.
    + rewrite (g_matchPattern_record m own rest v Hm).
      apply uncaught_bind; [apply uncaught_run_getter|]. intros _ _.
      destruct (negb (isObject v)); [apply uncaught_silent; reflexivity|].
      apply uncaught_every. intros k Hk.
      destruct (own_property m own rest k Hk) as [w [-> Hin]].
      apply uncaught_bind; [apply uncaught_run_getter|]. intros _ _.
      apply uncaught_bind; [apply uncaught_silent; destruct v; reflexivity|].
      intros present _. apply uncaught_bind.
      * destruct present; [apply uncaught_silent; reflexivity|].
        apply uncaught_isOptionalPattern.
      * intros ok _. destruct (ToBoolean ok); [|apply uncaught_silent; reflexivity].
        apply uncaught_bind; [apply uncaught_get|].
        intros field _. rewrite Forall_forall in IH. apply (IH (k, w) Hin).
Qed.



(** *** The engine on a host with well-typed matchers *)

Lemma wa_bind A B (m : M A) (k : A -> M B) :
  without_accessor_calls (bind m k) =
  bind (without_accessor_calls m) (fun a => without_accessor_calls (k a)).
Proof.
  destruct m as [t [a | e]]; [|reflexivity].
  unfold without_accessor_calls, bind. cbn [fst snd].
  destruct (k a) as [t' c]. cbn [fst snd]. rewrite filter_app. reflexivity.
Qed.

Lemma wa_every A (f : A -> M bool) (l : list A) :
  without_accessor_calls (every f l) =
  every (fun x => without_accessor_calls (f x)) l.
Proof.
  induction l as [| x l IH]; [reflexivity|].
  cbn [every]. rewrite wa_bind. apply bind_ext. intros [|]; [exact IH | reflexivity].
Qed.

Lemma wa_everyi A (f : A -> nat -> M bool) (l : list A) (i : nat) :
  without_accessor_calls (everyi f l i) =
  everyi (fun x j => without_accessor_calls (f x j)) l i.
Proof.
  revert i; induction l as [| x l IH]; intros i; [reflexivity|].
  cbn [everyi]. rewrite wa_bind. apply bind_ext. intros [|]; [apply IH | reflexivity].
Qed.

Lemma g_forEach_select_returning (g : string -> value) (ks : list string) :
  (forall key w, select key w = Normal tt) ->
  forEach (fun key => g_call_select key (g key)) ks =
  (map (fun key => CallSelect key (g key)) ks, Normal tt).
Proof.
  intros Hs. induction ks as [| k ks IH]; [reflexivity|].
  cbn [forEach]. unfold General.call_select at 1. rewrite Hs, IH. reflexivity.
Qed.

Lemma wa_delegate call f v :
  invoke f = Returns (call f) -> (forall key w, select key w = Normal tt) ->
  without_accessor_calls (g_delegate f v) = delegate call f v.
Proof.
  intros Hi Hs. unfold General.delegate, General.run_match, delegate. rewrite Hi.
  rewrite wa_bind.
  change (without_accessor_calls (emit (CallAccessor f))) with (ret tt : M unit).
  rewrite bind_ret_l.
  unfold General.call_match. destruct (match_ (call f) v) as [r | e]; [|reflexivity].
  rewrite bind_normal. unfold select_calls.
  destruct (matched r); [destruct (selections r) as [sels|]|]; try reflexivity.
  rewrite g_forEach_select_returning by exact Hs.
  rewrite bind_normal. cbn [trace outcome ret fst snd].
  unfold without_accessor_calls. cbn [fst snd filter is_CallAccessor negb app].
  rewrite app_nil_r. f_equal. f_equal.
  induction (keys sels) as [| k ks IH]; [reflexivity|].
  cbn [map filter is_CallAccessor negb]. f_equal. exact IH.
Qed.

Lemma wa_isOptionalPattern call x :
  (forall f, invoke f = Returns (call f)) -> (forall o q, getter o q = Data) ->
  (r <- without_accessor_calls (g_isOptionalPattern x) ;; ret (ToBoolean r)) =
  isOptionalPattern call fn_matcher x.
Proof.
  intros Hi Hd. destruct (g_symbols_matcher x) as [| | f] eqn:Hx.
  1, 2: rewrite g_isOptionalPattern_without_key
          by (intros f Hf; rewrite Hx in Hf; discriminate Hf);
        unfold isOptionalPattern, isMatcher;
        change (symbols_matcher fn_matcher x) with (g_symbols_matcher x);
        rewrite Hx, andb_false_r;
        destruct (ToBoolean x) eqn:Ht;
        [rewrite (g_run_getter_data _ _ (Hd x MatcherKey)), bind_ret_l; reflexivity
        |cbn; rewrite Ht; reflexivity].
  rewrite (g_isOptionalPattern_with_key x f Hx).
  rewrite (g_run_getter_data _ _ (Hd x MatcherKey)), !bind_ret_l, Hi.
  rewrite (isOptionalPattern_accessor call fn_matcher x f Hx). reflexivity.
Qed.

(** X19. On a host whose values under the matcher key are accessors of
    well-formed matchers, whose [select] returns and whose properties are
    data properties, the general engine does what the engine of the
    typed signatures does: the same result, and the same calls of [match]
    and [select] in the same order, with the calls of the accessors in
    between. *)
Theorem typed_engine_is_general_engine call p :
  (forall f, invoke f = Returns (call f)) ->
  (forall key w, select key w = Normal tt) ->
  (forall o q, getter o q = Data) ->
  forall v,
    without_accessor_calls (g_matchPattern p v) = matchPattern call fn_matcher p v.
Proof.
  intros Hi Hs Hd.
  induction p as [| | b | n | z | s | id | id | m items rest IH | m own rest IH]
    using value_ind; intros v;
    try (rewrite g_matchPattern_literal, matchPattern_literal
           by (rewrite isObject_spec; reflexivity); reflexivity).
  - destruct (truthy_property m) eqn:Hm.
    + destruct m as [| | f]; try discriminate Hm.
      rewrite (g_matchPattern_matcher (VArr (Accessor f) items rest) v f eq_refl eq_refl).
      rewrite (g_run_getter_data _ _ (Hd _ _)), !bind_ret_l.
      rewrite (matchPattern_matcher call fn_matcher (VArr (Accessor f) items rest) v f
                 eq_refl eq_refl).
      apply wa_delegate; [apply Hi | exact Hs].
    + rewrite (g_matchPattern_array m items rest v Hm).
      rewrite (matchPattern_array call fn_matcher m items rest v Hm).
      rewrite (g_run_getter_data _ _ (Hd _ _)), bind_ret_l.
      destruct (negb (isObject v)); [reflexivity|].
      destruct (negb (Array_isArray v)) eqn:Ha; [reflexivity|].
      destruct (Nat.eqb _ _); [|reflexivity].
      rewrite wa_everyi. apply everyi_ext_in. intros x j Hx.
      rewrite (g_run_getter_data _ _ (Hd _ _)), bind_ret_l.
      destruct v; try discriminate Ha.
      rewrite g_get_at_array, (g_run_getter_data _ _ (Hd _ _)), !bind_ret_l.
      cbn [js_get_index get_index]. rewrite bind_ret_l.
      rewrite Forall_forall in IH. apply (IH x Hx).
  - destruct (truthy_property m) eqn:Hm.
    + destruct m as [| | f]; try discriminate Hm.
      rewrite (g_matchPattern_matcher (VObj (Accessor f) own rest) v f eq_refl eq_refl).
      rewrite (g_run_getter_data _ _ (Hd _ _)), !bind_ret_l.
      rewrite (matchPattern_matcher call fn_matcher (VObj (Accessor f) own rest) v f
                 eq_refl eq_refl).
      apply wa_delegate; [apply Hi | exact Hs].
    + rewrite (g_matchPattern_record m own rest v Hm).
      rewrite (matchPattern_record call fn_matcher m own rest v Hm).
      rewrite (g_run_getter_data _ _ (Hd _ _)), bind_ret_l.
      destruct (isObject v) eqn:Hv; cbn [negb]; [|reflexivity].
      rewrite wa_every. apply every_ext_in. intros k Hk.
      destruct (own_property m own rest k Hk) as [w [-> Hin]].
      rewrite (g_run_getter_data _ _ (Hd _ _)), bind_ret_l. cbv zeta.
      rewrite (js_in_composite k v Hv), !bind_ret_l.
      rewrite Forall_forall in IH.
      assert (Hgo : without_accessor_calls
                      (field <- g_get v k ;; g_matchPattern w field) =
                    (field <- js_get v k ;; matchPattern call fn_matcher w field)).
      { rewrite (g_get_composite v k Hv), (g_run_getter_data _ _ (Hd _ _)).
        rewrite !bind_ret_l, (js_get_composite v k Hv), bind_ret_l.
        apply (IH (k, w) Hin). }
      destruct (has_property v k).
      * rewrite !bind_ret_l. cbn [ToBoolean]. exact Hgo.
      * rewrite wa_bind, <- (wa_isOptionalPattern call w Hi Hd), bind_assoc.
        apply bind_ext. intros r. rewrite bind_ret_l.
        destruct (ToBoolean r); [exact Hgo | reflexivity].
Qed.

End GeneralFacts.






Lemma typed_engine_is_general_engine_witness :
  without_accessor_calls
    (General.matchPattern (fun f => Returns (host_call f)) host_fn quiet_select
       plain_getter select_then_one five_two)
  = matchPattern host_call host_fn select_then_one five_two.
Proof.
  exact (typed_engine_is_general_engine (fun f => Returns (host_call f)) host_fn
           quiet_select plain_getter host_call select_then_one
           (fun _ => eq_refl) (fun _ _ => eq_refl) (fun _ _ => eq_refl) five_two).
Defined.
